(** * hexnet_service: the DHCP classless-static-route codec of [main.go]

    A shallow embedding of the encoder [buildHexString] and of the stream
    decoder [parseHexStream], together with the helpers [ipToHex] and
    [cidrPrefixBytes], and of the parts of Go's standard library they call
    ([encoding/hex], [strings], [net], [fmt], [unicode/utf8]).

    Go strings and [[]byte] slices are both sequences of bytes: they are
    modelled as [list byte].  Go's [int] is modelled as [Z]. *)

From Stdlib Require Import String Ascii.
From Stdlib Require Import ZArith NArith Lia List Bool.
From Stdlib Require Import Init.Byte.
Import ListNotations.

Local Open Scope Z_scope.

(* ------------------------------------------------------------------ *)
(** ** Bytes and Go strings *)

Definition gostring := list byte.

(** A string literal, as the bytes of its text. *)
Definition str (s : string) : gostring := list_byte_of_string s.

Definition byte_val (b : byte) : Z := Z.of_N (Byte.to_N b).

(** Go's conversion [byte(n)]: the low eight bits of [n]. *)
Definition byte_of_Z (n : Z) : byte :=
  match Byte.of_N (Z.to_N (n mod 256)) with
  | Some b => b
  | None => x00
  end.

Definition byte_eqb (a b : byte) : bool := Byte.eqb a b.

(** [s[i]] where the index is known to be in range at every use. *)
Definition index (s : list byte) (i : nat) : byte := nth i s x00.

(** [s[lo:hi]]. *)
Definition slice (s : list byte) (lo hi : nat) : list byte :=
  firstn (hi - lo) (skipn lo s).

(* ------------------------------------------------------------------ *)
(** ** encoding/hex *)

Module hex.

(** [hextable = "0123456789abcdef"]. *)
Definition hextable (n : Z) : byte :=
  if n <? 10 then byte_of_Z (48 + n) else byte_of_Z (87 + n).

(** [EncodeToString]: two lowercase digits per byte. *)
Fixpoint EncodeToString (src : list byte) : gostring :=
  match src with
  | [] => []
  | v :: rest =>
      hextable (Z.shiftr (byte_val v) 4)
        :: hextable (Z.land (byte_val v) 15)
        :: EncodeToString rest
  end.

(** The reverse table: the value of a hexadecimal digit of either case,
    [None] where Go's table holds [0xff]. *)
Definition fromHexChar (c : byte) : option Z :=
  let v := byte_val c in
  if (48 <=? v) && (v <=? 57) then Some (v - 48)
  else if (97 <=? v) && (v <=? 102) then Some (v - 97 + 10)
  else if (65 <=? v) && (v <=? 70) then Some (v - 65 + 10)
  else None.

Inductive error :=
| InvalidByteError (c : byte)
| ErrLength.

(** [DecodeString]: pairs of digits are decoded from the left; the first
    invalid digit is reported, an odd trailing digit gives [ErrLength]
    unless that digit is itself invalid.  The bytes decoded before the
    error are returned with it, as [Decode] does. *)
Fixpoint DecodeString (s : gostring) : list byte * option error :=
  match s with
  | [] => ([], None)
  | [p] =>
      match fromHexChar p with
      | None => ([], Some (InvalidByteError p))
      | Some _ => ([], Some ErrLength)
      end
  | p :: q :: rest =>
      match fromHexChar p with
      | None => ([], Some (InvalidByteError p))
      | Some a =>
          match fromHexChar q with
          | None => ([], Some (InvalidByteError q))
          | Some b =>
              let '(dst, err) := DecodeString rest in
              (byte_of_Z (Z.lor (Z.shiftl a 4) b) :: dst, err)
          end
      end
  end.

End hex.

(* ------------------------------------------------------------------ *)
(** ** math and the conversion between [int] and [float64] *)

(** [float64(n)] for a positive 64-bit [n]: the nearest value with a 53-bit
    significand, ties to even.  The result is always an integer, so it is
    kept as a [Z]. *)
Definition float64_of_int (n : Z) : Z :=
  let l := Z.log2 n in
  if l <? 53 then n
  else
    let e := l - 52 in
    let q := Z.shiftr n e in
    let r := n - Z.shiftl q e in
    let half := Z.shiftl 1 (e - 1) in
    let q' := if r <? half then q
              else if half <? r then q + 1
              else if Z.even q then q else q + 1 in
    Z.shiftl q' e.

(** [math.Ceil(x / 8.0)] for an integral [x]: dividing a float64 by eight
    only changes its exponent, so the quotient is exact. *)
Definition ceil_div8 (x : Z) : Z := - ((- x) / 8).

(* ------------------------------------------------------------------ *)
(** ** cidrPrefixBytes (main.go, lines 37-42) *)

Definition cidrPrefixBytes (prefix : Z) : Z :=
  if prefix <=? 0 then 0
  else ceil_div8 (float64_of_int prefix).

(* ------------------------------------------------------------------ *)
(** ** unicode and unicode/utf8 *)

Module utf8.

Definition RuneError : Z := 0xFFFD.
Definition RuneSelf : Z := 0x80.
Definition UTFMax : Z := 4.

(** The table [first] joined with [acceptRanges]: for the lead byte of a
    multi-byte sequence, its size and the accepted range of the second
    byte.  [None] stands for the entries [as] (ASCII) and [xx] (invalid),
    which both give a rune of width one. *)
Definition first (b : byte) : option (Z * Z * Z) :=
  let v := byte_val b in
  if v <? 0xC2 then None
  else if v <=? 0xDF then Some (2, 0x80, 0xBF)
  else if v =? 0xE0 then Some (3, 0xA0, 0xBF)
  else if v <=? 0xEC then Some (3, 0x80, 0xBF)
  else if v =? 0xED then Some (3, 0x80, 0x9F)
  else if v <=? 0xEF then Some (3, 0x80, 0xBF)
  else if v =? 0xF0 then Some (4, 0x90, 0xBF)
  else if v <=? 0xF3 then Some (4, 0x80, 0xBF)
  else if v =? 0xF4 then Some (4, 0x80, 0x8F)
  else None.

(** [DecodeRuneInString]: the first rune of [s] and its width in bytes. *)
Definition DecodeRuneInString (s : gostring) : Z * Z :=
  match s with
  | [] => (RuneError, 0)
  | s0 :: _ =>
      let v0 := byte_val s0 in
      if v0 <? RuneSelf then (v0, 1)
      else
        match first s0 with
        | None => (RuneError, 1)
        | Some (sz, lo, hi) =>
            if Z.of_nat (length s) <? sz then (RuneError, 1)
            else
              let s1 := byte_val (index s 1) in
              if (s1 <? lo) || (hi <? s1) then (RuneError, 1)
              else if sz <=? 2 then
                (Z.lor (Z.shiftl (Z.land v0 0x1F) 6) (Z.land s1 0x3F), 2)
              else
                let s2 := byte_val (index s 2) in
                if (s2 <? 0x80) || (0xBF <? s2) then (RuneError, 1)
                else if sz <=? 3 then
                  (Z.lor (Z.lor (Z.shiftl (Z.land v0 0x0F) 12)
                                (Z.shiftl (Z.land s1 0x3F) 6))
                         (Z.land s2 0x3F), 3)
                else
                  let s3 := byte_val (index s 3) in
                  if (s3 <? 0x80) || (0xBF <? s3) then (RuneError, 1)
                  else
                    (Z.lor (Z.lor (Z.lor (Z.shiftl (Z.land v0 0x07) 18)
                                         (Z.shiftl (Z.land s1 0x3F) 12))
                                  (Z.shiftl (Z.land s2 0x3F) 6))
                           (Z.land s3 0x3F), 4)
        end
  end.

(** [RuneStart]: the byte is not a continuation byte. *)
Definition RuneStart (b : byte) : bool :=
  negb (Z.land (byte_val b) 0xC0 =? 0x80).

(** The backward search of [DecodeLastRuneInString] for the start of the
    last rune: from [start] down to [lim], stopping at a rune start. *)
Fixpoint find_start (fuel : nat) (s : gostring) (start lim : Z) : Z :=
  match fuel with
  | O => start
  | S fuel' =>
      if start <? lim then start
      else if RuneStart (index s (Z.to_nat start)) then start
      else find_start fuel' s (start - 1) lim
  end.

(** [DecodeLastRuneInString]: the last rune of [s] and its width. *)
Definition DecodeLastRuneInString (s : gostring) : Z * Z :=
  let e := Z.of_nat (length s) in
  if e =? 0 then (RuneError, 0)
  else
    let start := e - 1 in
    let r := byte_val (index s (Z.to_nat start)) in
    if r <? RuneSelf then (r, 1)
    else
      let lim := Z.max (e - UTFMax) 0 in
      let start := find_start 4 s (start - 1) lim in
      let start := Z.max start 0 in
      let '(r, size) := DecodeRuneInString (slice s (Z.to_nat start) (Z.to_nat e)) in
      if negb (start + size =? e) then (RuneError, 1)
      else (r, size).

(** [AppendRune] on an empty buffer: the UTF-8 encoding of a rune. *)
Definition EncodeRune (r : Z) : gostring :=
  if (0 <=? r) && (r <=? 0x7F) then [byte_of_Z r]
  else if (0 <=? r) && (r <=? 0x7FF) then
    [byte_of_Z (Z.lor 0xC0 (Z.shiftr r 6));
     byte_of_Z (Z.lor 0x80 (Z.land r 0x3F))]
  else if (r <? 0) || (0x10FFFF <? r) || ((0xD800 <=? r) && (r <=? 0xDFFF)) then
    [xef; xbf; xbd]
  else if r <=? 0xFFFF then
    [byte_of_Z (Z.lor 0xE0 (Z.shiftr r 12));
     byte_of_Z (Z.lor 0x80 (Z.land (Z.shiftr r 6) 0x3F));
     byte_of_Z (Z.lor 0x80 (Z.land r 0x3F))]
  else
    [byte_of_Z (Z.lor 0xF0 (Z.shiftr r 18));
     byte_of_Z (Z.lor 0x80 (Z.land (Z.shiftr r 12) 0x3F));
     byte_of_Z (Z.lor 0x80 (Z.land (Z.shiftr r 6) 0x3F));
     byte_of_Z (Z.lor 0x80 (Z.land r 0x3F))].

End utf8.

Module unicode.

(** [IsSpace]: the Latin-1 spaces, and beyond Latin-1 the ranges of the
    [White_Space] table. *)
Definition IsSpace (r : Z) : bool :=
  if r <=? 0xFF then
    ((9 <=? r) && (r <=? 13)) || (r =? 32) || (r =? 0x85) || (r =? 0xA0)
  else
    (r =? 0x1680) || ((0x2000 <=? r) && (r <=? 0x200a))
    || ((0x2028 <=? r) && (r <=? 0x2029)) || (r =? 0x202f)
    || (r =? 0x205f) || (r =? 0x3000).

End unicode.

(* ------------------------------------------------------------------ *)
(** ** strings *)

Module strings.

(** [HasPrefix]. *)
Fixpoint HasPrefix (s prefix : gostring) {struct prefix} : bool :=
  match prefix, s with
  | [], _ => true
  | p :: prefix', c :: s' => byte_eqb c p && HasPrefix s' prefix'
  | _ :: _, [] => false
  end.

(** [TrimLeftFunc]: runes are decoded from the left and dropped while [f]
    holds.  Every step drops at least one byte, so [length s] steps are
    enough (lemma [TrimLeftFunc_loop_fuel]). *)
Fixpoint TrimLeftFunc_loop (fuel : nat) (s : gostring) (f : Z -> bool) : gostring :=
  match fuel with
  | O => []
  | S fuel' =>
      match s with
      | [] => []
      | _ :: _ =>
          let '(r, size) := utf8.DecodeRuneInString s in
          if f r then TrimLeftFunc_loop fuel' (skipn (Z.to_nat size) s) f
          else s
      end
  end.

Definition TrimLeftFunc (s : gostring) (f : Z -> bool) : gostring :=
  TrimLeftFunc_loop (length s) s f.

(** [lastIndexFunc s f false]: the index of the last rune on which [f]
    fails, decoding runes from the right; [None] for Go's [-1]. *)
Fixpoint lastIndexFunc (fuel : nat) (s : gostring) (i : Z) (f : Z -> bool) : option Z :=
  match fuel with
  | O => None
  | S fuel' =>
      if 0 <? i then
        let '(r, size) := utf8.DecodeLastRuneInString (slice s 0 (Z.to_nat i)) in
        let i := i - size in
        if f r then lastIndexFunc fuel' s i f else Some i
      else None
  end.

(** [TrimRightFunc]. *)
Definition TrimRightFunc (s : gostring) (f : Z -> bool) : gostring :=
  let n := Z.of_nat (length s) in
  match lastIndexFunc (length s) s n f with
  | Some i =>
      if utf8.RuneSelf <=? byte_val (index s (Z.to_nat i)) then
        let '(_, wid) := utf8.DecodeRuneInString (skipn (Z.to_nat i) s) in
        slice s 0 (Z.to_nat (i + wid))
      else slice s 0 (Z.to_nat (i + 1))
  | None => slice s 0 0
  end.

(** [TrimFunc]. *)
Definition TrimFunc (s : gostring) (f : Z -> bool) : gostring :=
  TrimRightFunc (TrimLeftFunc s f) f.

(** The table [asciiSpace]. *)
Definition asciiSpace (c : byte) : bool :=
  let v := byte_val c in
  ((9 <=? v) && (v <=? 13)) || (v =? 32).

(** [TrimSpace], first loop: the index of the first ASCII byte that is not
    a space; on a byte beyond ASCII the rest is handed to [TrimFunc] and
    its result ([inl]) is the result of [TrimSpace]. *)
Fixpoint TrimSpace_start (s : gostring) : gostring + gostring :=
  match s with
  | [] => inr []
  | c :: rest =>
      if utf8.RuneSelf <=? byte_val c then inl (TrimFunc s unicode.IsSpace)
      else if asciiSpace c then TrimSpace_start rest
      else inr s
  end.

(** [TrimSpace], second loop, on the reversed [s[start:]]: ASCII spaces
    are dropped from the end; on a byte beyond ASCII what is left is
    handed to [TrimRightFunc]. *)
Fixpoint TrimSpace_stop (rs : gostring) : gostring :=
  match rs with
  | [] => []
  | c :: rest =>
      if utf8.RuneSelf <=? byte_val c then TrimRightFunc (rev rs) unicode.IsSpace
      else if asciiSpace c then TrimSpace_stop rest
      else rev rs
  end.

Definition TrimSpace (s : gostring) : gostring :=
  match TrimSpace_start s with
  | inl r => r
  | inr rest => TrimSpace_stop (rev rest)
  end.

(** [Cut(s, sep)] for a one-byte separator. *)
Fixpoint Cut (s : gostring) (sep : byte) : gostring * gostring * bool :=
  match s with
  | [] => ([], [], false)
  | c :: rest =>
      if byte_eqb c sep then ([], rest, true)
      else let '(before, after, found) := Cut rest sep in
           (c :: before, after, found)
  end.

(** [Split(s, sep)] for a one-byte separator: the pieces of [s] between
    the separators, one more than there are separators. *)
Fixpoint Split (s : gostring) (sep : byte) : list gostring :=
  match s with
  | [] => [[]]
  | c :: rest =>
      if byte_eqb c sep then [] :: Split rest sep
      else
        match Split rest sep with
        | piece :: pieces => (c :: piece) :: pieces
        | [] => [[c]]
        end
  end.

(** The loop of [FieldsFunc] over the runes of [s]: [rest] is what is left
    of [s], [field] is the span that is open ([s[start:end]] when
    [start >= 0]) and [a] the spans that are closed, each kept as the bytes
    it covers. *)
Fixpoint FieldsFunc_loop (fuel : nat) (rest : gostring) (field : option gostring)
    (a : list gostring) (f : Z -> bool) : list gostring :=
  match fuel with
  | O => a
  | S fuel' =>
      match rest with
      | [] => match field with Some fl => a ++ [fl] | None => a end
      | _ :: _ =>
          let '(rune, size) := utf8.DecodeRuneInString rest in
          let rest' := skipn (Z.to_nat size) rest in
          if f rune then
            match field with
            | Some fl => FieldsFunc_loop fuel' rest' None (a ++ [fl]) f
            | None => FieldsFunc_loop fuel' rest' None a f
            end
          else
            match field with
            | Some fl =>
                FieldsFunc_loop fuel' rest'
                  (Some (fl ++ firstn (Z.to_nat size) rest)) a f
            | None =>
                FieldsFunc_loop fuel' rest'
                  (Some (firstn (Z.to_nat size) rest)) a f
            end
      end
  end.

(** [FieldsFunc].  One more step than [s] has bytes, for the end of the
    string. *)
Definition FieldsFunc (s : gostring) (f : Z -> bool) : list gostring :=
  FieldsFunc_loop (S (length s)) s None [] f.

(** [Fields]: the pieces of [s] between runs of white space, as
    [unicode.IsSpace] defines it. *)
Definition Fields (s : gostring) : list gostring :=
  FieldsFunc s unicode.IsSpace.

End strings.

(* ------------------------------------------------------------------ *)
(** ** fmt and strconv *)

Definition len (s : list byte) : Z := Z.of_nat (length s).

Module fmt.

(** The digits of a non-negative [n] in base [base] (10 or 16, lowercase).
    A 64-bit [int] has at most 20 of them. *)
Fixpoint digits (fuel : nat) (base n : Z) : gostring :=
  match fuel with
  | O => []
  | S fuel' =>
      if n <? base then [hex.hextable n]
      else digits fuel' base (n / base) ++ [hex.hextable (n mod base)]
  end.

(** The verb [%d] on an [int]. *)
Definition Sprintf_d (n : Z) : gostring :=
  if n <? 0 then str "-" ++ digits 20 10 (- n) else digits 20 10 n.

(** Zero padding on the left up to [width] bytes. *)
Definition zero_pad (width : nat) (s : gostring) : gostring :=
  repeat "0"%byte (width - length s) ++ s.

(** [Sprintf("%02x", n)] on an [int]: the sign, then the hexadecimal digits
    padded with zeros so that the whole is at least two bytes wide. *)
Definition Sprintf_02x (n : Z) : gostring :=
  if n <? 0 then str "-" ++ zero_pad 1 (digits 20 16 (- n))
  else zero_pad 2 (digits 20 16 n).

(** [Sprintf("%x", b)] on a [[]byte]: two lowercase digits per byte. *)
Definition Sprintf_x (b : list byte) : gostring := hex.EncodeToString b.

(** [Sprintf("%s/%d", s, n)]. *)
Definition Sprintf_s_slash_d (s : gostring) (n : Z) : gostring :=
  s ++ str "/" ++ Sprintf_d n.

(** [strconv.IsPrint] on the rune of one byte (Latin-1). *)
Definition IsPrint_byte (c : byte) : bool :=
  let r := byte_val c in
  ((0x20 <=? r) && (r <=? 0x7E))
  || ((0xA1 <=? r) && (r <=? 0xFF) && negb (r =? 0xAD)).

(** The digit table of the uppercase verbs. *)
Definition udigit (n : Z) : byte :=
  if n <? 10 then byte_of_Z (48 + n) else byte_of_Z (55 + n).

(** [Sprintf("%#U", rune(c))] for a byte [c]: "U+" and four uppercase
    hexadecimal digits, then the character between quotes when it is
    printable. *)
Definition Sprintf_sharp_U (c : byte) : gostring :=
  str "U+00"
  ++ [udigit (Z.shiftr (byte_val c) 4); udigit (Z.land (byte_val c) 15)]
  ++ (if IsPrint_byte c
      then str " '" ++ utf8.EncodeRune (byte_val c) ++ str "'"
      else []).

End fmt.

(* ------------------------------------------------------------------ *)
(** ** net and net/netip *)

Module net.

Definition IP := list byte.
Definition IPMask := list byte.

Record IPNet := mkIPNet { IPNet_IP : IP; IPNet_Mask : IPMask }.

Definition IPv4len : Z := 4.
Definition IPv6len : Z := 16.

Definition v4InV6Prefix : list byte :=
  [x00; x00; x00; x00; x00; x00; x00; x00; x00; x00; xff; xff].

(** [IPv4(a, b, c, d)]: the 16-byte form of an IPv4 address. *)
Definition IPv4 (a b c d : byte) : IP := v4InV6Prefix ++ [a; b; c; d].

Definition isZeros (p : list byte) : bool :=
  forallb (fun b => byte_eqb b x00) p.

Definition bytes_eqb (a b : list byte) : bool :=
  (length a =? length b)%nat
  && forallb (fun p => byte_eqb (fst p) (snd p)) (combine a b).

(** [ip.To4()]; [None] is Go's [nil]. *)
Definition To4 (ip : IP) : option IP :=
  if len ip =? IPv4len then Some ip
  else if (len ip =? IPv6len) && isZeros (slice ip 0 10)
          && byte_eqb (index ip 10) xff && byte_eqb (index ip 11) xff
  then Some (slice ip 12 16)
  else None.

(** [CIDRMask(ones, bits)], the loop over the [l] bytes of the mask. *)
Fixpoint CIDRMask_loop (l : nat) (n : Z) : IPMask :=
  match l with
  | O => []
  | S l' =>
      if n >=? 8 then xff :: CIDRMask_loop l' (n - 8)
      else byte_of_Z (Z.lxor 0xff (Z.shiftr 0xff n)) :: CIDRMask_loop l' 0
  end.

Definition CIDRMask (ones bits : Z) : IPMask :=
  if negb (bits =? 8 * IPv4len) && negb (bits =? 8 * IPv6len) then []
  else if (ones <? 0) || (ones >? bits) then []
  else CIDRMask_loop (Z.to_nat (bits / 8)) ones.

(** The inner loop of [simpleMaskLength]: the leading one bits of [v]. *)
Fixpoint count_ones (fuel : nat) (v n : Z) : Z * Z :=
  match fuel with
  | O => (v, n)
  | S fuel' =>
      if negb (Z.land v 0x80 =? 0)
      then count_ones fuel' (Z.shiftl v 1 mod 256) (n + 1)
      else (v, n)
  end.

Fixpoint simpleMaskLength (mask : IPMask) (n : Z) : Z :=
  match mask with
  | [] => n
  | v :: rest =>
      if byte_eqb v xff then simpleMaskLength rest (n + 8)
      else
        let '(v', n') := count_ones 8 (byte_val v) n in
        if negb (v' =? 0) then -1
        else if isZeros rest then n' else -1
  end.

(** [m.Size()]. *)
Definition Size (m : IPMask) : Z * Z :=
  let ones := simpleMaskLength m 0 in
  let bits := len m * 8 in
  if ones =? -1 then (0, 0) else (ones, bits).

Definition allFF (b : list byte) : bool :=
  forallb (fun c => byte_eqb c xff) b.

(** [ip.Mask(mask)]; the empty list is Go's [nil]. *)
Definition Mask (ip : IP) (mask : IPMask) : IP :=
  let mask := if (len mask =? IPv6len) && (len ip =? IPv4len)
                 && allFF (slice mask 0 12)
              then slice mask 12 16 else mask in
  let ip := if (len mask =? IPv4len) && (len ip =? IPv6len)
               && bytes_eqb (slice ip 0 12) v4InV6Prefix
            then slice ip 12 16 else ip in
  if negb (len ip =? len mask) then []
  else map (fun p => byte_of_Z (Z.land (byte_val (fst p)) (byte_val (snd p))))
           (combine ip mask).

(** [netip.Addr]: an IPv4 address, or an IPv6 address with its zone. *)
Inductive Addr :=
| Addr4 (a : list byte)
| Addr6 (a : list byte) (zone : gostring).

Definition BitLen (a : Addr) : Z :=
  match a with Addr4 _ => 32 | Addr6 _ _ => 128 end.

Definition Zone (a : Addr) : gostring :=
  match a with Addr4 _ => [] | Addr6 _ z => z end.

Definition As16 (a : Addr) : list byte :=
  match a with Addr4 f => v4InV6Prefix ++ f | Addr6 b _ => b end.

Definition isDigit (c : byte) : bool :=
  (48 <=? byte_val c) && (byte_val c <=? 57).

Definition set (fields : list byte) (pos : Z) (v : byte) : list byte :=
  firstn (Z.to_nat pos) fields ++ v :: skipn (S (Z.to_nat pos)) fields.

(** The loop of [parseIPv4Fields]: [prev] is [s[i-1]] ([None] when
    [i == 0]) and the list is [s[i:]]; [None] is any of its errors. *)
Fixpoint parseIPv4Fields_loop (s : gostring) (prev : option byte)
    (val pos digLen : Z) (fields : list byte) : option (Z * Z * list byte) :=
  match s with
  | [] => Some (val, pos, fields)
  | c :: rest =>
      if isDigit c then
        if (digLen =? 1) && (val =? 0) then None
        else
          let val := val * 10 + byte_val c - 48 in
          let digLen := digLen + 1 in
          if val >? 255 then None
          else parseIPv4Fields_loop rest (Some c) val pos digLen fields
      else if byte_eqb c "."%byte then
        if match prev with None => true | Some p => byte_eqb p "."%byte end
           || match rest with [] => true | _ => false end
        then None
        else if pos =? 3 then None
        else parseIPv4Fields_loop rest (Some c) 0 (pos + 1) 0
               (set fields pos (byte_of_Z val))
      else None
  end.

Definition parseIPv4Fields (s : gostring) : option (list byte) :=
  match parseIPv4Fields_loop s None 0 0 0 [x00; x00; x00; x00] with
  | None => None
  | Some (val, pos, fields) =>
      if pos <? 3 then None
      else Some (set fields 3 (byte_of_Z val))
  end.

Definition parseIPv4 (s : gostring) : option Addr :=
  match parseIPv4Fields s with
  | Some fields => Some (Addr4 fields)
  | None => None
  end.

(** [dtoi]: decimal to integer; the number, the bytes consumed, success. *)
Definition big : Z := 0xFFFFFF.

Fixpoint dtoi_loop (s : gostring) (n i : Z) : Z * Z * bool :=
  match s with
  | [] => (n, i, true)
  | c :: rest =>
      if isDigit c then
        let n := n * 10 + (byte_val c - 48) in
        if n >=? big then (big, i, false)
        else dtoi_loop rest n (i + 1)
      else (n, i, true)
  end.

Definition dtoi (s : gostring) : Z * Z * bool :=
  let '(n, i, ok) := dtoi_loop s 0 0 in
  if negb ok then (n, i, false)
  else if i =? 0 then (0, 0, false)
  else (n, i, true).

Section WithIPv6.

(** The text parser of IPv6 addresses, [netip.parseIPv6]: the sixteen bytes
    and the zone of the address, [None] for an error.  The codec only looks
    at the bytes it returns. *)
Variable parseIPv6 : gostring -> option (list byte * gostring).

(** [netip.ParseAddr]: the first of '.', ':' and '%' decides the parser. *)
Fixpoint ParseAddr_scan (s rest : gostring) : option Addr :=
  match rest with
  | [] => None
  | c :: rest' =>
      if byte_eqb c "."%byte then parseIPv4 s
      else if byte_eqb c ":"%byte then
        match parseIPv6 s with
        | Some (a, z) => Some (Addr6 a z)
        | None => None
        end
      else if byte_eqb c "%"%byte then None
      else ParseAddr_scan s rest'
  end.

Definition ParseAddr (s : gostring) : option Addr := ParseAddr_scan s s.

(** [ParseCIDR]: the address as it is written and the network it implies. *)
Definition ParseCIDR (s : gostring) : option (IP * IPNet) :=
  let '(addr, mask, found) := strings.Cut s "/"%byte in
  if negb found then None
  else
    match ParseAddr addr with
    | None => None
    | Some ipAddr =>
        if negb (len (Zone ipAddr) =? 0) then None
        else
          let '(n, i, ok) := dtoi mask in
          if negb ok || negb (i =? len mask) || (n <? 0) || (n >? BitLen ipAddr)
          then None
          else
            let m := CIDRMask n (BitLen ipAddr) in
            let addr16 := As16 ipAddr in
            Some (addr16, mkIPNet (Mask addr16 m) m)
    end.

(** [ParseIP]; [None] is Go's [nil]. *)
Definition ParseIP (s : gostring) : option IP :=
  match ParseAddr s with
  | None => None
  | Some ip => if negb (len (Zone ip) =? 0) then None else Some (As16 ip)
  end.

End WithIPv6.

(** [strconv]-free decimal of one byte, as [netip] prints the fields of an
    IPv4 address. *)
Definition appendDecimal (b : byte) : gostring := fmt.digits 3 10 (byte_val b).

(** [net.IPv4(a, b, c, d).String()]: [String] asks [To4] first, which on
    the result of [IPv4] gives the four bytes back (lemma [To4_IPv4]), and
    prints them in dotted-decimal form.  The other forms of [String]
    ("<nil>", "?" with hex digits, IPv6 text) are for values the codec
    never prints. *)
Definition IPv4_String (a b c d : byte) : gostring :=
  appendDecimal a ++ str "." ++ appendDecimal b ++ str "."
  ++ appendDecimal c ++ str "." ++ appendDecimal d.

Section WithIPv6Text.

(** The text of an IPv6 address that is not an IPv4 address in disguise,
    as [netip.Addr.String] prints its sixteen bytes. *)
Variable formatIPv6 : list byte -> gostring.

(** [ip.String()]. *)
Definition IP_String (ip : IP) : gostring :=
  if len ip =? 0 then str "<nil>"
  else if negb (len ip =? IPv4len) && negb (len ip =? IPv6len)
  then str "?" ++ hex.EncodeToString ip
  else
    match To4 ip with
    | Some [a; b; c; d] => IPv4_String a b c d
    | _ => formatIPv6 ip
    end.

End WithIPv6Text.

End net.

(* ------------------------------------------------------------------ *)
(** ** main.go *)

(** [type pair struct]. *)
Record pair := mkpair {
  Target : gostring;
  Route : gostring;
  Hex : gostring;
  Error : gostring
}.

(** The errors that [main.go] builds with [fmt.Errorf], one constructor for
    each format string, carrying the format's arguments. *)
Inductive error :=
| only_IPv4_supported (ip : net.IP)          (* "only IPv4 supported: %v" *)
| invalid_bytes (bytes : Z)                  (* "invalid bytes: %d" *)
| invalid_target_CIDR (text : gostring)      (* "invalid target CIDR: %w" *)
| target_ip_error (e : error)                (* "target ip error: %w" *)
| invalid_route_IP (text : gostring)         (* "invalid route IP: %s" *)
| route_ip_error (e : error)                 (* "route ip error: %w" *)
| invalid_hex_string (e : hex.error)         (* "invalid hex string: %w" *)
| unexpected_end_of_data                     (* "unexpected end of data" *)
| not_enough_data_for_record.                (* "not enough data for record" *)

(** [ipToHex] (lines 25-35). *)
Definition ipToHex (ip : net.IP) (bytes : Z) : gostring * option error :=
  match net.To4 ip with
  | None => ([], Some (only_IPv4_supported ip))
  | Some v4 =>
      if (bytes <? 0) || (bytes >? 4) then ([], Some (invalid_bytes bytes))
      else
        let b := slice v4 0 (Z.to_nat bytes) in
        (hex.EncodeToString b, None)
  end.

(** [make([]byte, n)]. *)
Definition make (n : nat) : list byte := repeat x00 n.

(** [copy(dst, src)]: the contents of [dst] afterwards. *)
Definition copy (dst src : list byte) : list byte :=
  firstn (length dst) src ++ skipn (length src) dst.

(** [append(s, t...)] for a slice [s = buf[lo:hi]] of the buffer [buf] with
    [hi + len(t) <= len(buf)]: the capacity of [s] reaches the end of
    [buf], so the bytes of [t] are written over [buf[hi : hi+len(t)]] and
    no new array is allocated.  The buffer afterwards, and the result. *)
Definition append_in_place (buf : list byte) (lo hi : nat) (t : list byte)
  : list byte * list byte :=
  let buf' := firstn hi buf ++ t ++ skipn (hi + length t) buf in
  (buf', slice buf' lo (hi + length t)).

Section Codec.

(** [netip.parseIPv6], as in [net.ParseCIDR] and [net.ParseIP]. *)
Variable parseIPv6 : gostring -> option (list byte * gostring).

(** [buildHexString] (lines 44-70). *)
Definition buildHexString (targetCIDR routeIP : gostring)
  : gostring * option error :=
  match net.ParseCIDR parseIPv6 targetCIDR with
  | None => ([], Some (invalid_target_CIDR targetCIDR))
  | Some (ip, ipNet) =>
      let '(ones, _) := net.Size (net.IPNet_Mask ipNet) in
      let bytesNeeded := cidrPrefixBytes ones in
      match ipToHex ip bytesNeeded with
      | (_, Some err) => ([], Some (target_ip_error err))
      | (targetHex, None) =>
          match net.ParseIP parseIPv6 routeIP with
          | None => ([], Some (invalid_route_IP routeIP))
          | Some r =>
              match ipToHex r 4 with
              | (_, Some err) => ([], Some (route_ip_error err))
              | (rHex, None) =>
                  let prefixHex := fmt.Sprintf_02x ones in
                  let result := str "0x" ++ prefixHex ++ targetHex ++ rHex in
                  (result, None)
              end
          end
      end
  end.

End Codec.

(** The [for] loop of [parseHexStream] (lines 84-110).  Every iteration
    that does not return moves [i] forward by at least five bytes, so
    [len(data) - i] iterations are always enough (lemma
    [parseHexStream_loop_fuel]). *)
Fixpoint parseHexStream_loop (fuel : nat) (data : list byte) (i : Z)
    (results : list pair) : list pair * option error :=
  match fuel with
  | O => (results, None)
  | S fuel' =>
      if i <? len data then
        if i + 1 >? len data then (results, Some unexpected_end_of_data)
        else
          let prefixLen := byte_val (index data (Z.to_nat i)) in
          let i := i + 1 in
          let bytesNeeded := cidrPrefixBytes prefixLen in
          if i + bytesNeeded + 4 >? len data
          then (results, Some not_enough_data_for_record)
          else
            let netLo := Z.to_nat i in
            let netPart := slice data netLo (Z.to_nat (i + bytesNeeded)) in
            let i := i + bytesNeeded in
            let routePart := slice data (Z.to_nat i) (Z.to_nat (i + 4)) in
            let netHi := Z.to_nat i in
            let i := i + 4 in
            let netIP := make 4 in
            let netIP := copy netIP [x00; x00; x00; x00] in
            let netIP := copy netIP netPart in
            let target :=
              fmt.Sprintf_s_slash_d
                (net.IPv4_String (index netIP 0) (index netIP 1)
                                 (index netIP 2) (index netIP 3))
                prefixLen in
            let route :=
              net.IPv4_String (index routePart 0) (index routePart 1)
                              (index routePart 2) (index routePart 3) in
            let '(data, netRoute) := append_in_place data netLo netHi routePart in
            let fullHex := [byte_of_Z prefixLen] ++ netRoute in
            let hexStr := fmt.Sprintf_x fullHex in
            parseHexStream_loop fuel' data i
              (results ++ [mkpair target route (str "0x" ++ hexStr) []])
      else (results, None)
  end.

(** [parseHexStream] (lines 72-112). *)
Definition parseHexStream (hexStr : gostring) : list pair * option error :=
  let hexStr := strings.TrimSpace hexStr in
  let hexStr :=
    if strings.HasPrefix hexStr (str "0x") || strings.HasPrefix hexStr (str "0X")
    then skipn 2 hexStr else hexStr in
  let '(data, err) := hex.DecodeString hexStr in
  match err with
  | Some err => ([], Some (invalid_hex_string err))
  | None => parseHexStream_loop (length data) data 0 []
  end.

(* ------------------------------------------------------------------ *)
(** ** The page handler of main.go *)

(** [err.Error()] for the errors of [encoding/hex]. *)
Definition hex_Error (e : hex.error) : gostring :=
  match e with
  | hex.InvalidByteError c =>
      str "encoding/hex: invalid byte: " ++ fmt.Sprintf_sharp_U c
  | hex.ErrLength => str "encoding/hex: odd length hex string"
  end.

(** What the handler reads of the request: [r.Method] and
    [r.FormValue("data")]. *)
Record Request := mkRequest { Method : gostring; FormValue_data : gostring }.

(** What the handler writes: the template executed on a list of rows
    ([nil] is the empty list), or a status code alone. *)
Inductive Response :=
| Execute (data : list pair)
| WriteHeader (status : Z).

Definition StatusMethodNotAllowed : Z := 405.

Section Page.

Variable parseIPv6 : gostring -> option (list byte * gostring).
Variable formatIPv6 : list byte -> gostring.

(** [err.Error()]: the format strings of [fmt.Errorf] with their arguments;
    [%v] prints a [net.IP] with its [String] method, and the error of
    [ParseCIDR] reads "invalid CIDR address: " and the text. *)
Fixpoint Error_text (e : error) : gostring :=
  match e with
  | only_IPv4_supported ip =>
      str "only IPv4 supported: " ++ net.IP_String formatIPv6 ip
  | invalid_bytes bytes => str "invalid bytes: " ++ fmt.Sprintf_d bytes
  | invalid_target_CIDR text =>
      str "invalid target CIDR: " ++ str "invalid CIDR address: " ++ text
  | target_ip_error e' => str "target ip error: " ++ Error_text e'
  | invalid_route_IP text => str "invalid route IP: " ++ text
  | route_ip_error e' => str "route ip error: " ++ Error_text e'
  | invalid_hex_string e' => str "invalid hex string: " ++ hex_Error e'
  | unexpected_end_of_data => str "unexpected end of data"
  | not_enough_data_for_record => str "not enough data for record"
  end.

(** The body of the loop over the lines (lines 164-189): the rows that one
    line adds to [results]. *)
Definition pageHandler_line (line : gostring) : list pair :=
  let line := strings.TrimSpace line in
  if len line =? 0 then []
  else
    let parts := strings.Fields line in
    if Z.of_nat (length parts) =? 1 then
      let h := nth 0 parts [] in
      let '(recs, err) := parseHexStream h in
      match err with
      | Some err => [mkpair [] [] h (Error_text err)]
      | None => recs
      end
    else if Z.of_nat (length parts) =? 2 then
      let t := nth 0 parts [] in
      let rIP := nth 1 parts [] in
      let '(res, err) := buildHexString parseIPv6 t rIP in
      match err with
      | Some err => [mkpair t rIP [] (Error_text err)]
      | None => [mkpair t rIP res []]
      end
    else [mkpair [] [] [] (str "line format invalid: " ++ line)].

(** The loop over the lines (lines 163-190). *)
Fixpoint pageHandler_lines (lines : list gostring) (results : list pair)
  : list pair :=
  match lines with
  | [] => results
  | line :: lines' =>
      pageHandler_lines lines' (results ++ pageHandler_line line)
  end.

(** [pageHandler] (lines 154-195). *)
Definition pageHandler (r : Request) : Response :=
  if net.bytes_eqb (Method r) (str "GET") then Execute []
  else if net.bytes_eqb (Method r) (str "POST") then
    let data := FormValue_data r in
    let lines := strings.Split (strings.TrimSpace data) x0a in
    Execute (pageHandler_lines lines [])
  else WriteHeader StatusMethodNotAllowed.

End Page.

(* ------------------------------------------------------------------ *)
(** ** The loop as a function of the unread bytes *)

(** The record that one iteration of the loop appends, given the length
    byte, the network bytes and the gateway bytes it has read (lines
    100-109). *)
Definition record_of (b : byte) (netPart routePart : list byte) : pair :=
  let prefixLen := byte_val b in
  let netIP := copy (copy (make 4) [x00; x00; x00; x00]) netPart in
  mkpair
    (fmt.Sprintf_s_slash_d
       (net.IPv4_String (index netIP 0) (index netIP 1)
                        (index netIP 2) (index netIP 3))
       prefixLen)
    (net.IPv4_String (index routePart 0) (index routePart 1)
                     (index routePart 2) (index routePart 3))
    (str "0x" ++ fmt.Sprintf_x ([b] ++ netPart ++ routePart))
    [].

(** What the loop returns from an index on depends only on the bytes from
    that index on: the records of [rest], with the error that stopped the
    decoding if any (lemma [parseHexStream_loop_records_from]). *)
Fixpoint records_from (fuel : nat) (rest : list byte) : list pair * option error :=
  match fuel with
  | O => ([], None)
  | S fuel' =>
      match rest with
      | [] => ([], None)
      | b :: tl =>
          let n := Z.to_nat (cidrPrefixBytes (byte_val b)) in
          if (length tl <? n + 4)%nat then ([], Some not_enough_data_for_record)
          else
            let '(rs, err) := records_from fuel' (skipn (n + 4) tl) in
            (record_of b (firstn n tl) (firstn 4 (skipn n tl)) :: rs, err)
      end
  end.

Definition records (data : list byte) : list pair * option error :=
  records_from (length data) data.

(** Lines 73-77 of [parseHexStream]: the prefix is dropped from the trimmed
    string, and what is left is decoded into the byte buffer. *)
Definition strip_prefix (hexStr : gostring) : gostring :=
  if strings.HasPrefix hexStr (str "0x") || strings.HasPrefix hexStr (str "0X")
  then skipn 2 hexStr else hexStr.

Definition stream_bytes (hexStr : gostring) : list byte * option hex.error :=
  hex.DecodeString (strip_prefix (strings.TrimSpace hexStr)).

(** A byte of ASCII that is not a space for [strings.TrimSpace]. *)
Definition plain (c : byte) : bool :=
  (byte_val c <? utf8.RuneSelf) && negb (strings.asciiSpace c).

(** A hexadecimal digit, of either case. *)
Definition isHexDigit (c : byte) : bool :=
  match hex.fromHexChar c with Some _ => true | None => false end.

(** A hex text: hexadecimal digits only, with no prefix. *)
Definition hex_text (h : gostring) : Prop := Forall (fun c => isHexDigit c = true) h.

(** The bytes that the hex string of an output record stands for. *)
Definition wire_bytes (r : pair) : list byte :=
  fst (hex.DecodeString (skipn 2 (Hex r))).

(** The lowercase form of one byte of ASCII. *)
Definition toLower (c : byte) : byte :=
  if (65 <=? byte_val c) && (byte_val c <=? 90)
  then byte_of_Z (byte_val c + 32) else c.

(** Two texts that differ at most in the case of their letters. *)
Definition same_up_to_case (h h' : gostring) : Prop :=
  map toLower h = map toLower h'.

(** A continuation byte of a multi-byte sequence ([10xxxxxx]). *)
Definition continuation (b : byte) : bool :=
  (0x80 <=? byte_val b) && (byte_val b <=? 0xBF).

(** A text that does not begin with a continuation byte. *)
Definition starts_rune (t : gostring) : Prop :=
  match t with [] => True | c :: _ => continuation c = false end.

(** A run of white space: the UTF-8 encodings of runes on which
    [unicode.IsSpace] holds, one after the other. *)
Definition whitespace (w : gostring) : Prop :=
  exists rs, Forall (fun r => unicode.IsSpace r = true) rs
             /\ w = flat_map utf8.EncodeRune rs.

(** The runes of [unicode.IsSpace]. *)
Definition space_runes : list Z :=
  [0x09; 0x0A; 0x0B; 0x0C; 0x0D; 0x20; 0x85; 0xA0; 0x1680;
   0x2000; 0x2001; 0x2002; 0x2003; 0x2004; 0x2005; 0x2006; 0x2007; 0x2008;
   0x2009; 0x200A; 0x2028; 0x2029; 0x202F; 0x205F; 0x3000].

(* ------------------------------------------------------------------ *)
(** ** Tactics *)

Ltac split_ifs :=
  repeat match goal with
         | |- context [if ?c then _ else _] => destruct c eqn:?
         end.

Ltac norm_index :=
  change (Z.to_nat 0) with 0%nat;
  change (Z.to_nat 1) with 1%nat;
  change (Z.to_nat 2) with 2%nat;
  cbn [index nth].

(** The number that a string of decimal digits stands for, on top of [acc]. *)
Definition dec_value (ds : gostring) (acc : Z) : Z :=
  fold_left (fun a c => a * 10 + (byte_val c - 48)) ds acc.

(** The fields of what is left of a string, with the state of the loop. *)
Definition fields_from (rest : gostring) (field : option gostring)
    (a : list gostring) : list gostring :=
  strings.FieldsFunc_loop (S (length rest)) rest field a unicode.IsSpace.

(** The closed spans with the open one, if any, closed behind them. *)
Definition close_field (field : option gostring) (a : list gostring)
  : list gostring :=
  match field with Some fl => a ++ [fl] | None => a end.

(** The bytes of the open span. *)
Definition open_bytes (field : option gostring) : gostring :=
  match field with Some fl => fl | None => [] end.

(** A token: bytes of ASCII that are not spaces, at least one. *)
Definition token (t : gostring) : Prop :=
  Forall (fun c => plain c = true) t /\ t <> [].

(** A separator: white space, at least one rune. *)
Definition separator (w : gostring) : Prop := whitespace w /\ w <> [].

(** A first token, and more tokens each behind a separator. *)
Definition joined (t : gostring) (more : list (gostring * gostring)) : gostring :=
  t ++ flat_map (fun wt => fst wt ++ snd wt) more.

(** A text that begins and ends with a byte of ASCII that is not a space. *)
Definition tidy (s : gostring) : Prop :=
  s <> [] /\ plain (hd x00 s) = true /\ plain (last s x00) = true.

(** The request that the form of the page sends. *)
Definition post (data : gostring) : Request := mkRequest (str "POST") data.

(* ================================================================== *)
(** * Properties *)

(* ------------------------------------------------------------------ *)
(** ** Bytes *)

Lemma byte_val_range (b : byte) : 0 <= byte_val b < 256.
Proof. destruct b; vm_compute; split; congruence. Qed.

Lemma byte_of_Z_val (b : byte) : byte_of_Z (byte_val b) = b.
Proof. destruct b; reflexivity. Qed.

Lemma byte_val_of_Z (n : Z) : 0 <= n < 256 -> byte_val (byte_of_Z n) = n.
Proof.
  intros H. unfold byte_of_Z, byte_val.
  rewrite Z.mod_small by assumption.
  destruct (Byte.of_N (Z.to_N n)) eqn:E.
  - apply Byte.to_of_N in E. lia.
  - apply Byte.of_N_None_iff in E. lia.
Qed.

Lemma byte_val_inj (a b : byte) : byte_val a = byte_val b -> a = b.
Proof.
  intros H. rewrite <- (byte_of_Z_val a), <- (byte_of_Z_val b). now rewrite H.
Qed.

Lemma byte_eqb_eq (a b : byte) : byte_eqb a b = true <-> a = b.
Proof.
  unfold byte_eqb. split; [apply Byte.byte_dec_bl | apply Byte.byte_dec_lb].
Qed.

Lemma len_app (a b : list byte) : len (a ++ b) = len a + len b.
Proof. unfold len. rewrite length_app. lia. Qed.

Lemma len_nonneg (a : list byte) : 0 <= len a.
Proof. unfold len. lia. Qed.

(* ------------------------------------------------------------------ *)
(** ** cidrPrefixBytes *)

Example cidrPrefixBytes_24 : cidrPrefixBytes 24 = 3.
Proof. reflexivity. Qed.

Lemma float64_of_int_small (n : Z) :
  0 < n < 2 ^ 53 -> float64_of_int n = n.
Proof.
  intros H. unfold float64_of_int.
  assert (Z.log2 n < 53) by (apply Z.log2_lt_pow2; lia).
  destruct (Z.log2 n <? 53) eqn:E; [reflexivity | apply Z.ltb_ge in E; lia].
Qed.

(** Below 2^53 the detour through [float64] is exact: the function is the
    integer ceiling of [prefix / 8]. *)
Lemma cidrPrefixBytes_ceil (p : Z) :
  0 < p < 2 ^ 53 -> cidrPrefixBytes p = (p + 7) / 8.
Proof.
  intros H. unfold cidrPrefixBytes, ceil_div8.
  destruct (p <=? 0) eqn:E; [apply Z.leb_le in E; lia |].
  rewrite float64_of_int_small by assumption.
  pose proof (Z.div_mod (- p) 8 ltac:(lia)).
  pose proof (Z.mod_pos_bound (- p) 8 ltac:(lia)).
  pose proof (Z.div_mod (p + 7) 8 ltac:(lia)).
  pose proof (Z.mod_pos_bound (p + 7) 8 ltac:(lia)).
  lia.
Qed.

Lemma cidrPrefixBytes_byte (b : byte) :
  cidrPrefixBytes (byte_val b) = (byte_val b + 7) / 8.
Proof.
  pose proof (byte_val_range b).
  destruct (Z.eq_dec (byte_val b) 0) as [E | E].
  - rewrite E. reflexivity.
  - apply cidrPrefixBytes_ceil. lia.
Qed.

Lemma cidrPrefixBytes_byte_range (b : byte) :
  0 <= cidrPrefixBytes (byte_val b) <= 32.
Proof.
  rewrite cidrPrefixBytes_byte. pose proof (byte_val_range b).
  split; [apply Z.div_pos; lia | ].
  apply Z.lt_succ_r. apply Z.div_lt_upper_bound; lia.
Qed.

(* ------------------------------------------------------------------ *)
(** ** The loop of parseHexStream *)

Lemma slice_app_mid (pre rest : list byte) (a b : nat) :
  slice (pre ++ rest) (length pre + a) (length pre + b) = slice rest a b.
Proof.
  unfold slice. rewrite skipn_app.
  rewrite skipn_all2 by lia. simpl.
  replace (length pre + a - length pre)%nat with a by lia.
  f_equal. lia.
Qed.

Lemma append_in_place_id (buf : list byte) (lo mid : nat) (n : nat) :
  (lo <= mid)%nat -> (mid + n <= length buf)%nat ->
  append_in_place buf lo mid (slice buf mid (mid + n))
  = (buf, slice buf lo mid ++ slice buf mid (mid + n)).
Proof.
  intros H1 H2. unfold append_in_place.
  assert (L : length (slice buf mid (mid + n)) = n).
  { unfold slice. rewrite length_firstn, length_skipn. lia. }
  rewrite L.
  assert (E : firstn mid buf ++ slice buf mid (mid + n) ++ skipn (mid + n) buf = buf).
  { unfold slice. replace (mid + n - mid)%nat with n by lia.
    rewrite <- (firstn_skipn mid buf) at 4.
    f_equal. rewrite <- (firstn_skipn n (skipn mid buf)) at 2.
    f_equal. rewrite skipn_skipn. f_equal. lia. }
  rewrite E. f_equal.
  unfold slice.
  replace (mid + n - lo)%nat with ((mid - lo) + n)%nat by lia.
  replace (mid + n - mid)%nat with n by lia.
  rewrite <- (firstn_skipn (mid - lo) (firstn (mid - lo + n) (skipn lo buf))).
  rewrite firstn_firstn. replace (Nat.min (mid - lo) (mid - lo + n)) with (mid - lo)%nat by lia.
  f_equal.
  rewrite skipn_firstn_comm. replace (mid - lo + n - (mid - lo))%nat with n by lia.
  rewrite skipn_skipn. do 2 f_equal. lia.
Qed.

Lemma parseHexStream_loop_S fuel data i results :
  parseHexStream_loop (S fuel) data i results =
      if i <? len data then
        if i + 1 >? len data then (results, Some unexpected_end_of_data)
        else
          let prefixLen := byte_val (index data (Z.to_nat i)) in
          let i := i + 1 in
          let bytesNeeded := cidrPrefixBytes prefixLen in
          if i + bytesNeeded + 4 >? len data
          then (results, Some not_enough_data_for_record)
          else
            let netLo := Z.to_nat i in
            let netPart := slice data netLo (Z.to_nat (i + bytesNeeded)) in
            let i := i + bytesNeeded in
            let routePart := slice data (Z.to_nat i) (Z.to_nat (i + 4)) in
            let netHi := Z.to_nat i in
            let i := i + 4 in
            let netIP := make 4 in
            let netIP := copy netIP [x00; x00; x00; x00] in
            let netIP := copy netIP netPart in
            let target :=
              fmt.Sprintf_s_slash_d
                (net.IPv4_String (index netIP 0) (index netIP 1)
                                 (index netIP 2) (index netIP 3))
                prefixLen in
            let route :=
              net.IPv4_String (index routePart 0) (index routePart 1)
                              (index routePart 2) (index routePart 3) in
            let '(data, netRoute) := append_in_place data netLo netHi routePart in
            let fullHex := [byte_of_Z prefixLen] ++ netRoute in
            let hexStr := fmt.Sprintf_x fullHex in
            parseHexStream_loop fuel data i
              (results ++ [mkpair target route (str "0x" ++ hexStr) []])
      else (results, None).
Proof. reflexivity. Qed.

Lemma slice_0 (s : list byte) (n : nat) : slice s 0 n = firstn n s.
Proof. unfold slice. simpl. now rewrite Nat.sub_0_r. Qed.

Lemma slice_plus (s : list byte) (k n : nat) :
  slice s k (k + n) = firstn n (skipn k s).
Proof. unfold slice. f_equal. lia. Qed.

Lemma parseHexStream_loop_records_from (fuel : nat) :
  forall (pre rest : list byte) (results : list pair),
    (length rest <= fuel)%nat ->
    parseHexStream_loop fuel (pre ++ rest) (len pre) results
    = let '(rs, err) := records_from fuel rest in (results ++ rs, err).
Proof.
  induction fuel as [| fuel IH]; intros pre rest results Hlen.
  - simpl. now rewrite app_nil_r.
  - rewrite parseHexStream_loop_S.
    destruct rest as [| b tl].
    + rewrite app_nil_r, Z.ltb_irrefl. simpl. now rewrite app_nil_r.
    + pose proof (cidrPrefixBytes_byte_range b) as Hn.
      assert (Hb : index (pre ++ b :: tl) (Z.to_nat (len pre)) = b).
      { unfold index, len. rewrite Nat2Z.id. apply nth_middle. }
      cbv zeta. rewrite Hb, byte_of_Z_val. clear Hb.
      set (n := cidrPrefixBytes (byte_val b)) in *.
      simpl records_from. fold n.
      set (k := Z.to_nat n).
      set (pre1 := pre ++ [b]).
      replace (pre ++ b :: tl) with (pre1 ++ tl)
        by (unfold pre1; now rewrite <- app_assoc).
      assert (Hp1 : len pre + 1 = len pre1) by (unfold pre1; now rewrite len_app).
      rewrite Hp1.
      replace (Z.to_nat (len pre1)) with (length pre1 + 0)%nat by (unfold len; lia).
      replace (Z.to_nat (len pre1 + n)) with (length pre1 + k)%nat by (unfold len; lia).
      replace (Z.to_nat (len pre1 + n + 4)) with (length pre1 + k + 4)%nat
        by (unfold len; lia).
      rewrite !Z.gtb_ltb, len_app.
      destruct (Z.ltb_spec (len pre) (len pre1 + len tl));
        [| unfold len in *; lia].
      destruct (Z.ltb_spec (len pre1 + len tl) (len pre1));
        [unfold len in *; lia |].
      destruct (Z.ltb_spec (len pre1 + len tl) (len pre1 + n + 4));
        destruct (Nat.ltb_spec (length tl) (k + 4)); unfold len in *; try lia.
      * now rewrite app_nil_r.
      * rewrite append_in_place_id by (rewrite ?length_app; lia).
        rewrite <- !Nat.add_assoc.
        rewrite !slice_app_mid, slice_0, slice_plus.
        replace (pre1 ++ tl)
          with ((pre1 ++ firstn (k + 4) tl) ++ skipn (k + 4) tl)
          by (rewrite <- app_assoc; now rewrite firstn_skipn).
        replace (Z.of_nat (length pre1) + n + 4)
          with (len (pre1 ++ firstn (k + 4) tl))
          by (unfold len; rewrite length_app, length_firstn; lia).
        rewrite IH by (rewrite length_skipn; simpl in Hlen; lia).
        destruct (records_from fuel (skipn (k + 4) tl)) as [rs err].
        rewrite <- app_assoc. reflexivity.
Qed.

Lemma records_from_fuel (f1 : nat) :
  forall (f2 : nat) (rest : list byte),
    (length rest <= f1)%nat -> (length rest <= f2)%nat ->
    records_from f1 rest = records_from f2 rest.
Proof.
  induction f1 as [| f1 IH]; intros f2 rest H1 H2.
  - destruct rest; [| simpl in H1; lia]. now destruct f2.
  - destruct f2 as [| f2].
    + destruct rest; [reflexivity | simpl in H2; lia].
    + destruct rest as [| b tl]; [reflexivity |].
      simpl in *.
      destruct (Nat.ltb_spec (length tl) (Z.to_nat (cidrPrefixBytes (byte_val b)) + 4));
        [reflexivity |].
      rewrite (IH f2) by (rewrite length_skipn; lia). reflexivity.
Qed.

Lemma records_nil : records [] = ([], None).
Proof. reflexivity. Qed.

Lemma records_cons (b : byte) (tl : list byte) :
  records (b :: tl) =
    let n := Z.to_nat (cidrPrefixBytes (byte_val b)) in
    if (length tl <? n + 4)%nat then ([], Some not_enough_data_for_record)
    else
      let '(rs, err) := records (skipn (n + 4) tl) in
      (record_of b (firstn n tl) (firstn 4 (skipn n tl)) :: rs, err).
Proof.
  unfold records. simpl.
  destruct (Nat.ltb_spec (length tl) (Z.to_nat (cidrPrefixBytes (byte_val b)) + 4));
    [reflexivity |].
  rewrite (records_from_fuel (length tl) (length (skipn (Z.to_nat (cidrPrefixBytes (byte_val b)) + 4) tl)))
    by (rewrite ?length_skipn; lia).
  reflexivity.
Qed.

(** The fuel of the loop is never used up: any amount of at least
    [len(data) - i] gives the same result. *)
Lemma parseHexStream_loop_fuel (fuel : nat) (pre rest : list byte) (results : list pair) :
  (length rest <= fuel)%nat ->
  parseHexStream_loop fuel (pre ++ rest) (len pre) results
  = (results ++ fst (records rest), snd (records rest)).
Proof.
  intros H. rewrite parseHexStream_loop_records_from by assumption.
  unfold records. rewrite (records_from_fuel fuel (length rest)) by lia.
  now destruct (records_from (length rest) rest).
Qed.


Lemma parseHexStream_records (hexStr : gostring) :
  parseHexStream hexStr =
    match stream_bytes hexStr with
    | (_, Some err) => ([], Some (invalid_hex_string err))
    | (data, None) => records data
    end.
Proof.
  unfold parseHexStream, stream_bytes, strip_prefix.
  destruct (hex.DecodeString _) as [data [err |]]; [reflexivity |].
  pose proof (parseHexStream_loop_fuel (length data) [] data [] (Nat.le_refl _)) as E.
  simpl in E. change (len []) with 0 in E. rewrite E.
  now destruct (records data).
Qed.

(* ------------------------------------------------------------------ *)
(** ** The errors of the decoder *)

Lemma parseHexStream_loop_errors (fuel : nat) :
  forall (data : list byte) (i : Z) (results : list pair),
    snd (parseHexStream_loop fuel data i results) = None
    \/ snd (parseHexStream_loop fuel data i results) = Some not_enough_data_for_record.
Proof.
  induction fuel as [| fuel IH]; intros data i results.
  - left. reflexivity.
  - rewrite parseHexStream_loop_S. cbv zeta.
    destruct (Z.ltb_spec i (len data)) as [Hi | Hi]; [| now left].
    rewrite Z.gtb_ltb.
    destruct (Z.ltb_spec (len data) (i + 1)) as [Hi' | Hi']; [lia |].
    destruct (_ >? len data); [now right |].
    destruct (append_in_place _ _ _ _) as [data' netRoute].
    apply IH.
Qed.

(** C10: the decoder never returns the error "unexpected end of data": the
    test that guards it is inside a loop whose condition already excludes
    it.  Every error of the decoder is either an invalid hex string or a
    record cut short. *)
Theorem C10_no_unexpected_end_of_data (hexStr : gostring) :
  snd (parseHexStream hexStr) <> Some unexpected_end_of_data
  /\ (snd (parseHexStream hexStr) = None
      \/ snd (parseHexStream hexStr) = Some not_enough_data_for_record
      \/ exists e, snd (parseHexStream hexStr) = Some (invalid_hex_string e)).
Proof.
  assert (H : snd (parseHexStream hexStr) = None
      \/ snd (parseHexStream hexStr) = Some not_enough_data_for_record
      \/ exists e, snd (parseHexStream hexStr) = Some (invalid_hex_string e)).
  { unfold parseHexStream.
    destruct (hex.DecodeString _) as [data [e |]].
    - right. right. exists e. reflexivity.
    - destruct (parseHexStream_loop_errors (length data) data 0 []) as [E | E];
        rewrite E; auto. }
  split; [| exact H].
  destruct H as [E | [E | [e E]]]; rewrite E; discriminate.
Qed.

(* ------------------------------------------------------------------ *)
(** ** The boundary values of cidrPrefixBytes *)

(** C6: the bytes-needed function is the ceiling of [prefixLength / 8] at
    the boundary values 0, 1, 8, 9, 24, 25 and 32, and it is 0 on every
    prefix length that is not positive. *)
Theorem C6_cidrPrefixBytes_boundaries :
  cidrPrefixBytes 0 = 0 /\ cidrPrefixBytes 1 = 1 /\ cidrPrefixBytes 8 = 1
  /\ cidrPrefixBytes 9 = 2 /\ cidrPrefixBytes 24 = 3 /\ cidrPrefixBytes 25 = 4
  /\ cidrPrefixBytes 32 = 4
  /\ (forall p, p <= 0 -> cidrPrefixBytes p = 0)
  /\ (forall p, 0 <= p <= 255 ->
        8 * (cidrPrefixBytes p - 1) < p <= 8 * cidrPrefixBytes p).
Proof.
  repeat (split; [reflexivity |]).
  split.
  - intros p Hp. unfold cidrPrefixBytes.
    destruct (Z.leb_spec p 0); [reflexivity | lia].
  - intros p Hp.
    destruct (Z.eq_dec p 0) as [-> | Hnz]; [vm_compute; split; congruence |].
    rewrite cidrPrefixBytes_ceil by lia.
    pose proof (Z.div_mod (p + 7) 8 ltac:(lia)).
    pose proof (Z.mod_pos_bound (p + 7) 8 ltac:(lia)).
    lia.
Qed.

(* ------------------------------------------------------------------ *)
(** ** Prefix lengths beyond 32 *)

(** C5: on a length byte in [33,255] one iteration of the loop does not
    reject the prefix length: [bytesNeeded] is the same ceiling as for the
    valid prefixes, the only error is the one for a record cut short, and
    otherwise the record is appended and the loop goes on behind it. *)
Theorem C5_long_prefix_not_rejected (fuel : nat) (data : list byte) (i : Z)
    (results : list pair) :
  0 <= i < len data ->
  let b := index data (Z.to_nat i) in
  let n := (byte_val b + 7) / 8 in
  33 <= byte_val b <= 255 ->
  cidrPrefixBytes (byte_val b) = n
  /\ parseHexStream_loop (S fuel) data i results =
       if len data - (i + 1) <? n + 4
       then (results, Some not_enough_data_for_record)
       else
         parseHexStream_loop fuel data (i + 1 + n + 4)
           (results ++
              [record_of b
                 (slice data (Z.to_nat (i + 1)) (Z.to_nat (i + 1 + n)))
                 (slice data (Z.to_nat (i + 1 + n)) (Z.to_nat (i + 1 + n + 4)))]).
Proof.
  intros Hi b n Hb.
  assert (Hn : cidrPrefixBytes (byte_val b) = n) by apply cidrPrefixBytes_byte.
  split; [exact Hn |].
  pose proof (cidrPrefixBytes_byte_range b) as Hr. rewrite Hn in Hr.
  rewrite parseHexStream_loop_S. cbv zeta. fold b. rewrite Hn, byte_of_Z_val.
  rewrite !Z.gtb_ltb.
  destruct (Z.ltb_spec i (len data)); [| lia].
  destruct (Z.ltb_spec (len data) (i + 1)); [lia |].
  destruct (Z.ltb_spec (len data) (i + 1 + n + 4));
    destruct (Z.ltb_spec (len data - (i + 1)) (n + 4)); try lia; [reflexivity |].
  replace (Z.to_nat (i + 1 + n + 4)) with (Z.to_nat (i + 1 + n) + 4)%nat by lia.
  rewrite append_in_place_id by (unfold len in *; lia).
  reflexivity.
Qed.

Lemma C5_long_prefix_witness :
  let data := str "!abcdewxyz" in
  (0 <= 0 < len data)
  /\ (33 <= byte_val (index data 0) <= 255)
  /\ cidrPrefixBytes 33 = 5
  /\ parseHexStream_loop 1 data 0 []
     = parseHexStream_loop 0 data 10
         [record_of "!"%byte (str "abcde") (str "wxyz")].
Proof.
  assert (H1 : 0 <= 0 < len (str "!abcdewxyz")) by (vm_compute; split; congruence).
  assert (H2 : 33 <= byte_val (index (str "!abcdewxyz") (Z.to_nat 0)) <= 255)
    by (vm_compute; split; congruence).
  split; [exact H1 |]. split; [exact H2 |].
  exact (C5_long_prefix_not_rejected 0 (str "!abcdewxyz") 0 [] H1 H2).
Defined.

(** A record with prefix length 33 and five network bytes is decoded; only
    the first four network bytes reach the printed address. *)
Example parseHexStream_prefix_33 :
  parseHexStream (str "0x210a0b0c0d0e01020304")
  = ([mkpair (str "10.11.12.13/33") (str "1.2.3.4")
        (str "0x210a0b0c0d0e01020304") []], None).
Proof. reflexivity. Qed.

(** A length byte of 255 asks for 32 network bytes. *)
Example parseHexStream_prefix_255 :
  cidrPrefixBytes 255 = 32
  /\ parseHexStream (str "0xff0a0b0c0d0e01020304")
     = ([], Some not_enough_data_for_record).
Proof. split; reflexivity. Qed.

(* ------------------------------------------------------------------ *)
(** ** Hexadecimal text *)

Lemma DecodeString_hextable (v : byte) (rest : gostring) :
  hex.DecodeString
    (hex.hextable (Z.shiftr (byte_val v) 4)
       :: hex.hextable (Z.land (byte_val v) 15) :: rest)
  = let '(dst, err) := hex.DecodeString rest in (v :: dst, err).
Proof. destruct v; reflexivity. Qed.

(** Decoding undoes encoding, whatever follows the encoded bytes. *)
Lemma DecodeString_EncodeToString_app (src : list byte) (rest : gostring) :
  hex.DecodeString (hex.EncodeToString src ++ rest)
  = (src ++ fst (hex.DecodeString rest), snd (hex.DecodeString rest)).
Proof.
  induction src as [| v src IH].
  - simpl. now destruct (hex.DecodeString rest).
  - cbn [hex.EncodeToString app]. rewrite DecodeString_hextable, IH. reflexivity.
Qed.

Lemma DecodeString_EncodeToString (src : list byte) :
  hex.DecodeString (hex.EncodeToString src) = (src, None).
Proof.
  rewrite <- (app_nil_r (hex.EncodeToString src)).
  rewrite DecodeString_EncodeToString_app. simpl. now rewrite app_nil_r.
Qed.

Lemma list_ind_pairs {A : Type} (P : list A -> Prop) :
  P [] -> (forall a, P [a]) -> (forall a b l, P l -> P (a :: b :: l)) ->
  forall l, P l.
Proof.
  intros H0 H1 H2 l.
  enough (H : P l /\ forall a, P (a :: l)) by apply H.
  induction l as [| x l [IHl IHxl]]; split; auto.
Qed.

(** A text that decodes without error can be followed by more text. *)
Lemma DecodeString_app (h1 h2 : gostring) (d1 : list byte) :
  hex.DecodeString h1 = (d1, None) ->
  hex.DecodeString (h1 ++ h2)
  = (d1 ++ fst (hex.DecodeString h2), snd (hex.DecodeString h2)).
Proof.
  revert d1. induction h1 as [| p | p q h1 IH] using list_ind_pairs; intros d1 H.
  - injection H as <-. simpl. now destruct (hex.DecodeString h2).
  - simpl in H. destruct (hex.fromHexChar p); discriminate.
  - cbn [app]. cbn [hex.DecodeString] in *.
    destruct (hex.fromHexChar p) as [a |]; [| discriminate].
    destruct (hex.fromHexChar q) as [b |]; [| discriminate].
    destruct (hex.DecodeString h1) as [d e] eqn:E.
    injection H as <- ->.
    rewrite (IH d eq_refl). reflexivity.
Qed.

(* ------------------------------------------------------------------ *)
(** ** Records of a byte buffer *)

Lemma records_ind (P : list byte -> Prop) :
  P [] ->
  (forall b tl,
     let n := Z.to_nat (cidrPrefixBytes (byte_val b)) in
     ((n + 4 <= length tl)%nat -> P (skipn (n + 4) tl)) -> P (b :: tl)) ->
  forall data, P data.
Proof.
  intros H0 HS data.
  remember (length data) as m eqn:Hm.
  revert data Hm. induction m as [m IH] using lt_wf_ind. intros data Hm.
  destruct data as [| b tl]; [exact H0 |].
  apply HS. intros Hle. eapply IH; [| reflexivity].
  subst m. rewrite length_skipn. simpl. lia.
Qed.

Lemma records_nonempty (data : list byte) (rs : list pair) :
  data <> [] -> records data = (rs, None) -> rs <> [].
Proof.
  destruct data as [| b tl]; [congruence |]. intros _.
  rewrite records_cons. cbv zeta.
  destruct (_ <? _)%nat; [discriminate |].
  destruct (records _) as [rs' e]. intros H. injection H as <- _. discriminate.
Qed.

(** A buffer that decodes without error can be followed by more bytes: the
    records of the two parts follow each other. *)
Lemma records_app (d1 d2 : list byte) :
  forall rs1, records d1 = (rs1, None) ->
  records (d1 ++ d2) = (rs1 ++ fst (records d2), snd (records d2)).
Proof.
  induction d1 as [| b tl n IH] using records_ind; intros rs1 H.
  - rewrite records_nil in H. injection H as <-. simpl. now destruct (records d2).
  - rewrite records_cons in H. cbn [app]. rewrite records_cons. cbv zeta in *.
    fold n in H |- *.
    destruct (Nat.ltb_spec (length tl) (n + 4)) as [Hlt | Hge]; [discriminate |].
    rewrite length_app.
    destruct (Nat.ltb_spec (length tl + length d2) (n + 4)); [lia |].
    destruct (records (skipn (n + 4) tl)) as [rs' e'] eqn:E.
    injection H as <- ->.
    rewrite !skipn_app.
    replace (n + 4 - length tl)%nat with 0%nat by lia.
    replace (n - length tl)%nat with 0%nat by lia.
    cbn [skipn].
    rewrite (IH Hge rs' eq_refl).
    rewrite !firstn_app, length_skipn.
    replace (n - length tl)%nat with 0%nat by lia.
    replace (4 - (length tl - n))%nat with 0%nat by lia.
    cbn [firstn]. rewrite !app_nil_r. reflexivity.
Qed.

Lemma removelast_firstn_pred {A : Type} (l : list A) :
  removelast l = firstn (pred (length l)) l.
Proof.
  destruct l as [| a l] using rev_ind; [reflexivity |].
  rewrite removelast_last, length_app. simpl.
  replace (pred (length l + 1)) with (length l + 0)%nat by lia.
  rewrite firstn_app_2. simpl. now rewrite app_nil_r.
Qed.

(** Cutting the last byte off a buffer that decodes without error leaves all
    records but the last one, and the error of a record cut short. *)
Lemma records_removelast (data : list byte) :
  forall rs, data <> [] -> records data = (rs, None) ->
  records (removelast data) = (removelast rs, Some not_enough_data_for_record).
Proof.
  induction data as [| b tl n IH] using records_ind; intros rs Hne H;
    [congruence |].
  rewrite records_cons in H. cbv zeta in H. fold n in H.
  destruct (Nat.ltb_spec (length tl) (n + 4)) as [Hlt | Hge]; [discriminate |].
  destruct (records (skipn (n + 4) tl)) as [rs' e'] eqn:E.
  injection H as <- ->.
  assert (Htl : tl <> []) by (destruct tl; [simpl in Hge; lia | discriminate]).
  replace (removelast (b :: tl)) with (b :: removelast tl)
    by (destruct tl; [congruence | reflexivity]).
  rewrite records_cons. cbv zeta. fold n.
  rewrite (removelast_firstn_pred tl), length_firstn.
  destruct (Nat.eq_dec (length tl) (n + 4)) as [Heq | Hneq].
  - destruct (Nat.ltb_spec (Nat.min (pred (length tl)) (length tl)) (n + 4)); [| lia].
    rewrite skipn_all2 in E by lia. rewrite records_nil in E.
    injection E as <-. reflexivity.
  - destruct (Nat.ltb_spec (Nat.min (pred (length tl)) (length tl)) (n + 4)); [lia |].
    assert (Hrest : skipn (n + 4) tl <> []).
    { intros C. apply (f_equal (@length byte)) in C.
      rewrite length_skipn in C. simpl in C. lia. }
    rewrite skipn_firstn_comm.
    replace (pred (length tl) - (n + 4))%nat
      with (pred (length (skipn (n + 4) tl))) by (rewrite length_skipn; lia).
    rewrite <- removelast_firstn_pred.
    rewrite (IH Hge rs' Hrest eq_refl).
    pose proof (records_nonempty _ _ Hrest E) as Hrs.
    rewrite firstn_firstn.
    replace (Nat.min n (pred (length tl))) with n by lia.
    rewrite skipn_firstn_comm, firstn_firstn.
    replace (Nat.min 4 (pred (length tl) - n)) with 4%nat by lia.
    destruct rs'; [congruence | reflexivity].
Qed.

(* ------------------------------------------------------------------ *)
(** ** TrimSpace on text without spaces *)


Lemma TrimSpace_plain (s : gostring) :
  Forall (fun c => plain c = true) s -> strings.TrimSpace s = s.
Proof.
  intros H. unfold strings.TrimSpace.
  assert (P : forall c, plain c = true ->
            (utf8.RuneSelf <=? byte_val c) = false /\ strings.asciiSpace c = false).
  { intros c Hc. unfold plain in Hc. apply andb_true_iff in Hc as [H1 H2].
    apply Z.ltb_lt in H1. apply negb_true_iff in H2.
    split; [apply Z.leb_gt; exact H1 | exact H2]. }
  destruct s as [| c rest]; [reflexivity |].
  cbn [strings.TrimSpace_start].
  destruct (P c (Forall_inv H)) as [-> ->].
  assert (Hr : Forall (fun c => plain c = true) (rev (c :: rest)))
    by (apply Forall_rev; exact H).
  destruct (rev (c :: rest)) as [| c' rest'] eqn:E.
  - apply (f_equal (@length byte)) in E. rewrite length_rev in E. discriminate.
  - cbn [strings.TrimSpace_stop].
    destruct (P c' (Forall_inv Hr)) as [-> ->].
    rewrite <- E. apply rev_involutive.
Qed.

Lemma isHexDigit_plain (c : byte) : isHexDigit c = true -> plain c = true.
Proof. destruct c; vm_compute; congruence. Qed.

Lemma isHexDigit_not_x (c : byte) :
  isHexDigit c = true -> byte_eqb c "x" = false /\ byte_eqb c "X" = false.
Proof. destruct c; vm_compute; intuition congruence. Qed.

Lemma hex_text_plain (h : gostring) :
  hex_text h -> Forall (fun c => plain c = true) h.
Proof. apply Forall_impl. exact isHexDigit_plain. Qed.

(** The buffer of a hex text, with or without prefix, is what its digits decode to. *)
Lemma stream_bytes_hex_text (h : gostring) :
  hex_text h ->
  stream_bytes h = hex.DecodeString h
  /\ stream_bytes (str "0x" ++ h) = hex.DecodeString h
  /\ stream_bytes (str "0X" ++ h) = hex.DecodeString h.
Proof.
  intros H. pose proof (hex_text_plain h H) as Hp.
  unfold stream_bytes. rewrite !TrimSpace_plain
    by (try exact Hp; repeat (constructor; [reflexivity |]); exact Hp).
  split; [| split; reflexivity].
  unfold strip_prefix.
  destruct h as [| c0 [| c1 h]]; try reflexivity.
  - cbn. now rewrite !andb_false_r.
  - cbn. apply Forall_inv_tail, Forall_inv in H.
    destruct (isHexDigit_not_x c1 H) as [-> ->].
    now rewrite !andb_false_r.
Qed.

(* ------------------------------------------------------------------ *)
(** ** Truncated streams *)

(** C3: when the last byte of a non-empty buffer that decodes without error
    is removed, the decoder fails with "not enough data for record" and
    still returns every record but the last one, which are the records
    that lie wholly before the cut.  What is left of the last record is
    never a lone length byte (a record has at least five bytes), so the
    error is always that of a record cut short. *)
Theorem C3_truncated_last_byte (blob blob' : gostring) (data : list byte)
    (rs : list pair) :
  stream_bytes blob = (data, None) ->
  data <> [] ->
  parseHexStream blob = (rs, None) ->
  stream_bytes blob' = (removelast data, None) ->
  parseHexStream blob' = (removelast rs, Some not_enough_data_for_record).
Proof.
  intros Hb Hne Hp Hb'.
  rewrite parseHexStream_records, Hb in Hp.
  rewrite parseHexStream_records, Hb'.
  now apply records_removelast.
Qed.

Lemma C3_truncated_last_byte_witness :
  let blob := str "0x18c0a800c0a80001000a000001" in
  let blob' := str "0x18c0a800c0a80001000a0000" in
  let data := [x18; xc0; xa8; x00; xc0; xa8; x00; x01; x00; x0a; x00; x00; x01] in
  let r1 := mkpair (str "192.168.0.0/24") (str "192.168.0.1") (str "0x18c0a800c0a80001") [] in
  let r2 := mkpair (str "0.0.0.0/0") (str "10.0.0.1") (str "0x000a000001") [] in
  stream_bytes blob = (data, None)
  /\ data <> []
  /\ parseHexStream blob = ([r1; r2], None)
  /\ stream_bytes blob' = (removelast data, None)
  /\ parseHexStream blob' = ([r1], Some not_enough_data_for_record).
Proof.
  cbv zeta.
  assert (H1 : stream_bytes (str "0x18c0a800c0a80001000a000001")
               = ([x18; xc0; xa8; x00; xc0; xa8; x00; x01; x00; x0a; x00; x00; x01], None))
    by reflexivity.
  assert (H2 : [x18; xc0; xa8; x00; xc0; xa8; x00; x01; x00; x0a; x00; x00; x01] <> [])
    by discriminate.
  assert (H3 : parseHexStream (str "0x18c0a800c0a80001000a000001")
               = ([mkpair (str "192.168.0.0/24") (str "192.168.0.1") (str "0x18c0a800c0a80001") [];
                   mkpair (str "0.0.0.0/0") (str "10.0.0.1") (str "0x000a000001") []], None))
    by reflexivity.
  assert (H4 : stream_bytes (str "0x18c0a800c0a80001000a0000")
               = (removelast [x18; xc0; xa8; x00; xc0; xa8; x00; x01; x00; x0a; x00; x00; x01], None))
    by reflexivity.
  repeat (split; [assumption |]).
  exact (C3_truncated_last_byte _ _ _ _ H1 H2 H3 H4).
Defined.

(* ------------------------------------------------------------------ *)
(** ** The hex string of an output record *)

Lemma wire_bytes_record_of (b : byte) (netPart routePart : list byte) :
  wire_bytes (record_of b netPart routePart) = b :: netPart ++ routePart
  /\ Hex (record_of b netPart routePart)
     = str "0x" ++ hex.EncodeToString (b :: netPart ++ routePart).
Proof.
  unfold wire_bytes, record_of, fmt.Sprintf_x. cbn [Hex].
  change (skipn 2 (str "0x" ++ ?x)) with x.
  now rewrite DecodeString_EncodeToString.
Qed.

(** The buffer starts with the wire bytes of the records decoded from it, one
    after the other; when there is no error nothing else is left. *)
Lemma records_wire_bytes (data : list byte) :
  forall rs err, records data = (rs, err) ->
  exists rest,
    data = concat (map wire_bytes rs) ++ rest
    /\ (err = None -> rest = [])
    /\ Forall (fun r =>
         exists b netPart routePart,
           r = record_of b netPart routePart
           /\ length netPart = Z.to_nat (cidrPrefixBytes (byte_val b))
           /\ length routePart = 4%nat) rs.
Proof.
  induction data as [| b tl n IH] using records_ind; intros rs err H.
  - rewrite records_nil in H. injection H as <- <-. exists []. auto.
  - rewrite records_cons in H. cbv zeta in H. fold n in H.
    destruct (Nat.ltb_spec (length tl) (n + 4)) as [Hlt | Hge].
    + injection H as <- <-. exists (b :: tl). repeat split; [discriminate | constructor].
    + destruct (records (skipn (n + 4) tl)) as [rs' e'] eqn:E.
      injection H as <- <-.
      destruct (IH Hge rs' e' eq_refl) as (rest & Hd & Hr & Hf).
      exists rest. split; [| split; [exact Hr |]].
      * cbn [map concat].
        rewrite (proj1 (wire_bytes_record_of _ _ _)).
        cbn [app]. f_equal. rewrite <- !app_assoc, <- Hd.
        rewrite <- (firstn_skipn n tl) at 1. f_equal.
        rewrite <- (firstn_skipn 4 (skipn n tl)) at 1. f_equal.
        rewrite skipn_skipn. f_equal. lia.
      * constructor; [| exact Hf].
        exists b, (firstn n tl), (firstn 4 (skipn n tl)).
        split; [reflexivity |].
        rewrite !length_firstn, length_skipn. lia.
Qed.

Lemma firstn_app_exact {A : Type} (a b : list A) (n : nat) :
  n = length a -> firstn n (a ++ b) = a.
Proof.
  intros ->. rewrite <- (Nat.add_0_r (length a)), firstn_app_2.
  simpl. apply app_nil_r.
Qed.

(** C4: the hex string of every output record is "0x" followed by the
    lowercase hex digits of the bytes of that record as they stand in the
    buffer: the length byte, the [bytesNeeded] network bytes as read (not
    the four bytes of the padded address) and the four gateway bytes.  The
    record begins where the bytes of the records before it end. *)
Theorem C4_record_hex_is_input_slice (hexStr : gostring) (data : list byte)
    (rs : list pair) (err : option error) :
  stream_bytes hexStr = (data, None) ->
  parseHexStream hexStr = (rs, err) ->
  forall rs1 r rs2, rs = rs1 ++ r :: rs2 ->
    let off := length (concat (map wire_bytes rs1)) in
    let n := Z.to_nat (cidrPrefixBytes (byte_val (index data off))) in
    (off + (1 + n + 4) <= length data)%nat
    /\ Hex r = str "0x" ++ hex.EncodeToString (slice data off (off + (1 + n + 4)))
    /\ wire_bytes r = slice data off (off + (1 + n + 4)).
Proof.
  intros Hb Hp rs1 r rs2 Hrs off n.
  rewrite parseHexStream_records, Hb in Hp.
  destruct (records_wire_bytes data rs err Hp) as (rest & Hd & _ & Hf).
  subst rs. rewrite map_app, concat_app in Hd. cbn [map concat] in Hd.
  apply Forall_elt in Hf. destruct Hf as (b & netPart & routePart & -> & Hn & Hr).
  destruct (wire_bytes_record_of b netPart routePart) as [Hw Hh].
  rewrite Hw in Hd |- *. rewrite Hh.
  set (pre := concat (map wire_bytes rs1)) in *.
  rewrite <- !app_assoc in Hd.
  set (tail := concat (map wire_bytes rs2) ++ rest) in *.
  assert (Hi : index data off = b).
  { rewrite Hd. unfold index, off. cbn [app]. apply nth_middle. }
  assert (Hn' : (1 + n + 4)%nat = length (b :: netPart ++ routePart)).
  { unfold n. rewrite Hi. cbn [length]. rewrite length_app. lia. }
  assert (Hs : slice data off (off + (1 + n + 4)) = b :: netPart ++ routePart).
  { rewrite Hd. unfold off. rewrite <- (Nat.add_0_r (length pre)) at 1.
    rewrite slice_app_mid, slice_0, Hn'. apply firstn_app_exact. reflexivity. }
  rewrite Hs. split; [| split; reflexivity].
  rewrite Hd, Hn'. unfold off. rewrite !length_app. lia.
Qed.

Lemma C4_record_hex_witness :
  let hexStr := str "0X18C0A800C0A80001000A000001" in
  let data := [x18; xc0; xa8; x00; xc0; xa8; x00; x01; x00; x0a; x00; x00; x01] in
  let r1 := mkpair (str "192.168.0.0/24") (str "192.168.0.1") (str "0x18c0a800c0a80001") [] in
  let r2 := mkpair (str "0.0.0.0/0") (str "10.0.0.1") (str "0x000a000001") [] in
  stream_bytes hexStr = (data, None)
  /\ parseHexStream hexStr = ([r1; r2], None)
  /\ Hex r2 = str "0x" ++ hex.EncodeToString (slice data 8 13)
  /\ wire_bytes r2 = slice data 8 13.
Proof.
  cbv zeta.
  assert (H1 : stream_bytes (str "0X18C0A800C0A80001000A000001")
               = ([x18; xc0; xa8; x00; xc0; xa8; x00; x01; x00; x0a; x00; x00; x01], None))
    by reflexivity.
  assert (H2 : parseHexStream (str "0X18C0A800C0A80001000A000001")
               = ([mkpair (str "192.168.0.0/24") (str "192.168.0.1") (str "0x18c0a800c0a80001") [];
                   mkpair (str "0.0.0.0/0") (str "10.0.0.1") (str "0x000a000001") []], None))
    by reflexivity.
  split; [exact H1 |]. split; [exact H2 |].
  exact (proj2 (C4_record_hex_is_input_slice _ _ _ _ H1 H2
                  [mkpair (str "192.168.0.0/24") (str "192.168.0.1") (str "0x18c0a800c0a80001") []]
                  (mkpair (str "0.0.0.0/0") (str "10.0.0.1") (str "0x000a000001") [])
                  [] eq_refl)).
Defined.

(* ------------------------------------------------------------------ *)
(** ** Streams of several records *)

Lemma hex_text_app (h1 h2 : gostring) :
  hex_text h1 -> hex_text h2 -> hex_text (h1 ++ h2).
Proof. intros H1 H2. apply Forall_app. split; assumption. Qed.

Lemma hex_text_concat (hs : list gostring) :
  Forall hex_text hs -> hex_text (concat hs).
Proof.
  induction 1 as [| h hs Hh _ IH]; [constructor |].
  simpl. now apply hex_text_app.
Qed.

(** C7: the hex texts of single-record blobs, joined behind one "0x"
    prefix, decode without error to the records of the blobs, one for each
    blob and in the order of the blobs. *)
Theorem C7_concatenated_blobs (hs : list gostring) (rs : list pair) :
  Forall2 (fun h r => hex_text h /\ parseHexStream (str "0x" ++ h) = ([r], None))
          hs rs ->
  parseHexStream (str "0x" ++ concat hs) = (rs, None).
Proof.
  intros H.
  assert (Ht : Forall hex_text hs).
  { induction H as [| h r hs rs [Hh _] _ IH]; constructor; assumption. }
  rewrite parseHexStream_records.
  rewrite (proj1 (proj2 (stream_bytes_hex_text _ (hex_text_concat _ Ht)))).
  clear Ht.
  induction H as [| h r hs rs [Hh Hp] _ IH].
  - reflexivity.
  - rewrite parseHexStream_records in Hp.
    rewrite (proj1 (proj2 (stream_bytes_hex_text _ Hh))) in Hp.
    destruct (hex.DecodeString h) as [d [e |]] eqn:Ed; [discriminate |].
    cbn [concat]. rewrite (DecodeString_app _ _ _ Ed).
    destruct (hex.DecodeString (concat hs)) as [d' [e' |]] eqn:Ed';
      [discriminate |].
    cbn [fst snd]. rewrite (records_app _ _ _ Hp), IH. reflexivity.
Qed.

Lemma C7_concatenated_blobs_witness :
  let h1 := str "18c0a800c0a80001" in
  let h2 := str "000A000001" in
  let r1 := mkpair (str "192.168.0.0/24") (str "192.168.0.1") (str "0x18c0a800c0a80001") [] in
  let r2 := mkpair (str "0.0.0.0/0") (str "10.0.0.1") (str "0x000a000001") [] in
  Forall2 (fun h r => hex_text h /\ parseHexStream (str "0x" ++ h) = ([r], None))
          [h1; h2; h1] [r1; r2; r1]
  /\ parseHexStream (str "0x18c0a800c0a80001000A00000118c0a800c0a80001")
     = ([r1; r2; r1], None).
Proof.
  cbv zeta.
  assert (H : Forall2
    (fun h r => hex_text h /\ parseHexStream (str "0x" ++ h) = ([r], None))
    [str "18c0a800c0a80001"; str "000A000001"; str "18c0a800c0a80001"]
    [mkpair (str "192.168.0.0/24") (str "192.168.0.1") (str "0x18c0a800c0a80001") [];
     mkpair (str "0.0.0.0/0") (str "10.0.0.1") (str "0x000a000001") [];
     mkpair (str "192.168.0.0/24") (str "192.168.0.1") (str "0x18c0a800c0a80001") []]).
  { repeat constructor. }
  split; [exact H |].
  exact (C7_concatenated_blobs _ _ H).
Defined.

(* ------------------------------------------------------------------ *)
(** ** Case of the digits and prefix of the blob *)


Lemma fromHexChar_toLower (c : byte) :
  isHexDigit c = true ->
  isHexDigit (toLower c) = true
  /\ hex.fromHexChar (toLower c) = hex.fromHexChar c.
Proof. destruct c; vm_compute; intuition congruence. Qed.

Lemma DecodeString_toLower (h : gostring) :
  hex_text h -> hex.DecodeString (map toLower h) = hex.DecodeString h.
Proof.
  induction h as [| p | p q h IH] using list_ind_pairs; intros H.
  - reflexivity.
  - apply Forall_inv in H. destruct (fromHexChar_toLower p H) as [_ E].
    cbn [map hex.DecodeString]. rewrite E.
    unfold isHexDigit in H. now destruct (hex.fromHexChar p).
  - pose proof (Forall_inv H) as Hp.
    pose proof (Forall_inv (Forall_inv_tail H)) as Hq.
    destruct (fromHexChar_toLower p Hp) as [_ Ep].
    destruct (fromHexChar_toLower q Hq) as [_ Eq].
    cbn [map hex.DecodeString].
    rewrite Ep, Eq, IH by exact (Forall_inv_tail (Forall_inv_tail H)).
    cbv beta in Hp, Hq. unfold isHexDigit in Hp, Hq.
    destruct (hex.fromHexChar p); [| discriminate].
    destruct (hex.fromHexChar q); [reflexivity | discriminate].
Qed.

Lemma DecodeString_same_up_to_case (h h' : gostring) :
  hex_text h -> hex_text h' -> same_up_to_case h h' ->
  hex.DecodeString h' = hex.DecodeString h.
Proof.
  intros H H' E.
  rewrite <- (DecodeString_toLower h H), <- (DecodeString_toLower h' H').
  now rewrite E.
Qed.

(** C8: a text of hexadecimal digits decodes to the same result with the
    prefix "0x", with the prefix "0X" and with no prefix, and so does every
    text that differs from it only in the case of its digits. *)
Theorem C8_case_and_prefix_insensitive (h h' : gostring) :
  hex_text h -> hex_text h' -> same_up_to_case h h' ->
  parseHexStream (str "0x" ++ h) = parseHexStream h
  /\ parseHexStream (str "0X" ++ h) = parseHexStream h
  /\ parseHexStream h' = parseHexStream h
  /\ parseHexStream (str "0x" ++ h') = parseHexStream h
  /\ parseHexStream (str "0X" ++ h') = parseHexStream h.
Proof.
  intros H H' E.
  destruct (stream_bytes_hex_text h H) as (E1 & E2 & E3).
  destruct (stream_bytes_hex_text h' H') as (E1' & E2' & E3').
  pose proof (DecodeString_same_up_to_case h h' H H' E) as Ed.
  rewrite !parseHexStream_records, E1, E2, E3, E1', E2', E3', Ed.
  repeat split.
Qed.

Lemma C8_case_and_prefix_witness :
  let h := str "18C0A800C0A80001" in
  let h' := str "18c0a800c0a80001" in
  let r := mkpair (str "192.168.0.0/24") (str "192.168.0.1") (str "0x18c0a800c0a80001") [] in
  hex_text h /\ hex_text h' /\ same_up_to_case h h'
  /\ parseHexStream (str "0x18C0A800C0A80001") = ([r], None)
  /\ parseHexStream (str "0X18c0a800c0a80001") = parseHexStream (str "0x18C0A800C0A80001")
  /\ parseHexStream (str "18c0a800c0a80001") = parseHexStream (str "0x18C0A800C0A80001").
Proof.
  cbv zeta.
  assert (H : hex_text (str "18C0A800C0A80001")) by (repeat constructor).
  assert (H' : hex_text (str "18c0a800c0a80001")) by (repeat constructor).
  assert (E : same_up_to_case (str "18C0A800C0A80001") (str "18c0a800c0a80001"))
    by reflexivity.
  destruct (C8_case_and_prefix_insensitive _ _ H H' E) as (P1 & P2 & P3 & P4 & P5).
  split; [exact H |]. split; [exact H' |]. split; [exact E |].
  split; [reflexivity |].
  split.
  - exact (eq_trans P5 (eq_sym P1)).
  - exact (eq_trans P3 (eq_sym P1)).
Defined.

(* ------------------------------------------------------------------ *)
(** ** Parsing and printing addresses *)

Lemma Z_range_forallb (P : Z -> bool) (n : nat) :
  forallb P (map Z.of_nat (seq 0 n)) = true ->
  forall p, 0 <= p < Z.of_nat n -> P p = true.
Proof.
  intros H p Hp. rewrite forallb_forall in H. apply H.
  rewrite <- (Z2Nat.id p) by lia. apply in_map, in_seq. lia.
Qed.

Lemma Size_CIDRMask (n bits : Z) :
  bits = 32 \/ bits = 128 -> 0 <= n <= bits ->
  net.Size (net.CIDRMask n bits) = (n, bits).
Proof.
  intros Hb Hn.
  set (P := fun n => let '(o, b) := net.Size (net.CIDRMask n bits) in
                     (o =? n) && (b =? bits)).
  assert (C : forallb P (map Z.of_nat (seq 0 (Z.to_nat (bits + 1)))) = true)
    by (destruct Hb; subst bits; vm_compute; reflexivity).
  pose proof (Z_range_forallb _ _ C n ltac:(lia)) as E.
  unfold P in E. destruct (net.Size _) as [o b].
  apply andb_true_iff in E as [E1 E2].
  apply Z.eqb_eq in E1, E2. congruence.
Qed.

Lemma To4_length (ip v4 : net.IP) : net.To4 ip = Some v4 -> length v4 = 4%nat.
Proof.
  unfold net.To4, net.IPv4len, net.IPv6len, len.
  destruct (Z.eqb_spec (Z.of_nat (length ip)) 4) as [E | _].
  - intros H. injection H as <-. lia.
  - destruct (Z.eqb_spec (Z.of_nat (length ip)) 16) as [E | _]; [| discriminate].
    destruct (_ && _ && _); [| discriminate].
    intros H. injection H as <-.
    unfold slice. rewrite length_firstn, length_skipn. lia.
Qed.

Lemma To4_IPv4 (a b c d : byte) : net.To4 (net.IPv4 a b c d) = Some [a; b; c; d].
Proof. reflexivity. Qed.

(** What [ParseCIDR] returns when it succeeds. *)
Lemma ParseCIDR_inv (parseIPv6 : gostring -> option (list byte * gostring))
    (s : gostring) (ip : net.IP) (ipNet : net.IPNet) :
  net.ParseCIDR parseIPv6 s = Some (ip, ipNet) ->
  exists n bits,
    (bits = 32 \/ bits = 128) /\ 0 <= n <= bits
    /\ ipNet = net.mkIPNet (net.Mask ip (net.CIDRMask n bits)) (net.CIDRMask n bits).
Proof.
  unfold net.ParseCIDR.
  destruct (strings.Cut s "/") as [[addr mask] found].
  destruct found; [| discriminate]. cbn [negb].
  destruct (net.ParseAddr parseIPv6 addr) as [ipAddr |]; [| discriminate].
  destruct (negb (len (net.Zone ipAddr) =? 0)); [discriminate |].
  destruct (net.dtoi mask) as [[n i] ok].
  destruct ok; [| discriminate]. cbn [negb orb].
  destruct (negb (i =? len mask)); [discriminate |]. cbn [orb].
  destruct (Z.ltb_spec n 0); [discriminate |]. cbn [orb].
  rewrite Z.gtb_ltb.
  destruct (Z.ltb_spec (net.BitLen ipAddr) n); [discriminate |].
  intros Hs. injection Hs as <- <-.
  exists n, (net.BitLen ipAddr). split; [| split; [lia | reflexivity]].
  destruct ipAddr; [left | right]; reflexivity.
Qed.

Lemma ipToHex_inv (ip : net.IP) (bytes : Z) (h : gostring) :
  ipToHex ip bytes = (h, None) ->
  exists v4, net.To4 ip = Some v4 /\ 0 <= bytes <= 4
             /\ h = hex.EncodeToString (slice v4 0 (Z.to_nat bytes)).
Proof.
  unfold ipToHex. destruct (net.To4 ip) as [v4 |]; [| discriminate].
  rewrite Z.gtb_ltb.
  destruct (Z.ltb_spec bytes 0); [discriminate |].
  destruct (Z.ltb_spec 4 bytes); [discriminate |]. cbn [orb].
  intros Hs. injection Hs as <-. exists v4. repeat split; lia.
Qed.

Lemma Sprintf_02x_byte (n : Z) :
  0 <= n <= 255 -> fmt.Sprintf_02x n = hex.EncodeToString [byte_of_Z n].
Proof.
  intros H.
  assert (C : forallb (fun n => net.bytes_eqb (fmt.Sprintf_02x n)
                                  (hex.EncodeToString [byte_of_Z n]))
                (map Z.of_nat (seq 0 256)) = true) by (vm_compute; reflexivity).
  pose proof (Z_range_forallb _ _ C n ltac:(lia)) as E. cbv beta in E.
  revert E. generalize (fmt.Sprintf_02x n) (hex.EncodeToString [byte_of_Z n]).
  intros x y. revert y. unfold net.bytes_eqb.
  induction x as [| a x IH]; intros [| b y] E; try discriminate; [reflexivity |].
  cbn in E. apply andb_true_iff in E as [E1 E2]. apply andb_true_iff in E2 as [E2 E3].
  apply byte_eqb_eq in E2. subst b. f_equal. apply IH.
  rewrite E1, E3. reflexivity.
Qed.

Lemma EncodeToString_hex_text (src : list byte) :
  hex_text (hex.EncodeToString src).
Proof.
  induction src as [| v src IH]; [constructor |].
  cbn [hex.EncodeToString].
  constructor; [destruct v; reflexivity |].
  constructor; [destruct v; reflexivity | exact IH].
Qed.

(** The buffer of a canonical blob is the bytes that were encoded. *)
Lemma stream_bytes_encoded (data : list byte) :
  stream_bytes (str "0x" ++ hex.EncodeToString data) = (data, None).
Proof.
  rewrite (proj1 (proj2 (stream_bytes_hex_text _ (EncodeToString_hex_text data)))).
  apply DecodeString_EncodeToString.
Qed.

(* ------------------------------------------------------------------ *)
(** ** The bytes the encoder emits *)

(** C2, as the code has it: when the encoder accepts its input, the bytes
    it emits are the prefix length in one byte, then the first
    [bytesNeeded] bytes of the address as it is written in the CIDR string
    (the first result of [ParseCIDR], whose host bits are not masked off),
    then the four bytes of the gateway. *)
Theorem C2_emitted_bytes (parseIPv6 : gostring -> option (list byte * gostring))
    (targetCIDR routeIP hexStr : gostring) :
  buildHexString parseIPv6 targetCIDR routeIP = (hexStr, None) ->
  exists ip ipNet r v4 g4,
    net.ParseCIDR parseIPv6 targetCIDR = Some (ip, ipNet)
    /\ net.To4 ip = Some v4 /\ length v4 = 4%nat
    /\ net.ParseIP parseIPv6 routeIP = Some r
    /\ net.To4 r = Some g4 /\ length g4 = 4%nat
    /\ let ones := fst (net.Size (net.IPNet_Mask ipNet)) in
       let bytesNeeded := cidrPrefixBytes ones in
       0 <= ones <= 32
       /\ bytesNeeded = (ones + 7) / 8
       /\ hexStr = str "0x" ++ hex.EncodeToString
                     ([byte_of_Z ones] ++ slice v4 0 (Z.to_nat bytesNeeded) ++ g4)
       /\ stream_bytes hexStr
          = ([byte_of_Z ones] ++ slice v4 0 (Z.to_nat bytesNeeded) ++ g4, None).
Proof.
  unfold buildHexString.
  destruct (net.ParseCIDR parseIPv6 targetCIDR) as [[ip ipNet] |] eqn:Ep;
    [| discriminate].
  destruct (ParseCIDR_inv _ _ _ _ Ep) as (n & bits & Hbits & Hn & ->).
  cbn [net.IPNet_Mask]. rewrite (Size_CIDRMask n bits Hbits Hn).
  destruct (ipToHex ip (cidrPrefixBytes n)) as [targetHex [e |]] eqn:Et;
    [discriminate |].
  destruct (net.ParseIP parseIPv6 routeIP) as [r |] eqn:Er; [| discriminate].
  destruct (ipToHex r 4) as [rHex [e |]] eqn:Eg; [discriminate |].
  intros H. injection H as <-.
  destruct (ipToHex_inv _ _ _ Et) as (v4 & Hv4 & Hk & ->).
  destruct (ipToHex_inv _ _ _ Eg) as (g4 & Hg4 & _ & ->).
  pose proof (To4_length _ _ Hv4) as Lv. pose proof (To4_length _ _ Hg4) as Lg.
  assert (Hones : 0 <= n <= 32).
  { destruct (Z.eq_dec n 0) as [-> | Hnz]; [lia |].
    rewrite cidrPrefixBytes_ceil in Hk by (destruct Hbits; lia).
    split; [lia |].
    destruct (Z.le_gt_cases n 32) as [? | Hgt]; [assumption |].
    assert (5 <= (n + 7) / 8) by (apply Z.div_le_lower_bound; lia). lia. }
  assert (Hb : cidrPrefixBytes n = (n + 7) / 8).
  { destruct (Z.eq_dec n 0) as [-> | Hnz]; [reflexivity |].
    apply cidrPrefixBytes_ceil. lia. }
  exists ip, (net.mkIPNet (net.Mask ip (net.CIDRMask n bits)) (net.CIDRMask n bits)),
         r, v4, g4.
  repeat (split; [assumption || reflexivity |]).
  cbn [net.IPNet_Mask]. rewrite (Size_CIDRMask n bits Hbits Hn). cbn [fst].
  split; [exact Hones |]. split; [exact Hb |].
  assert (Hh : str "0x" ++ fmt.Sprintf_02x n
         ++ hex.EncodeToString (slice v4 0 (Z.to_nat (cidrPrefixBytes n)))
         ++ hex.EncodeToString (slice g4 0 (Z.to_nat 4))
       = str "0x" ++ hex.EncodeToString
           ([byte_of_Z n] ++ slice v4 0 (Z.to_nat (cidrPrefixBytes n)) ++ g4)).
  { rewrite Sprintf_02x_byte by lia.
    replace (slice g4 0 (Z.to_nat 4)) with g4
      by (rewrite slice_0; symmetry; apply firstn_all2; lia).
    f_equal.
    assert (A : forall x y, hex.EncodeToString (x ++ y)
                            = hex.EncodeToString x ++ hex.EncodeToString y).
    { induction x as [| v x IH]; intros y; [reflexivity |].
      cbn [app hex.EncodeToString]. now rewrite IH. }
    now rewrite !A. }
  change ("0"%byte :: "x"%byte :: fmt.Sprintf_02x n ++ ?x)
    with (str "0x" ++ fmt.Sprintf_02x n ++ x).
  rewrite Hh. split; [reflexivity | apply stream_bytes_encoded].
Qed.

Lemma C2_emitted_bytes_witness :
  let parseIPv6 := fun _ : gostring => @None (list byte * gostring) in
  let hexStr := str "0x18c0a800c0a80001" in
  buildHexString parseIPv6 (str "192.168.0.0/24") (str "192.168.0.1") = (hexStr, None)
  /\ exists ip ipNet r v4 g4,
    net.ParseCIDR parseIPv6 (str "192.168.0.0/24") = Some (ip, ipNet)
    /\ net.To4 ip = Some v4 /\ length v4 = 4%nat
    /\ net.ParseIP parseIPv6 (str "192.168.0.1") = Some r
    /\ net.To4 r = Some g4 /\ length g4 = 4%nat
    /\ let ones := fst (net.Size (net.IPNet_Mask ipNet)) in
       let bytesNeeded := cidrPrefixBytes ones in
       0 <= ones <= 32
       /\ bytesNeeded = (ones + 7) / 8
       /\ hexStr = str "0x" ++ hex.EncodeToString
                     ([byte_of_Z ones] ++ slice v4 0 (Z.to_nat bytesNeeded) ++ g4)
       /\ stream_bytes hexStr
          = ([byte_of_Z ones] ++ slice v4 0 (Z.to_nat bytesNeeded) ++ g4, None).
Proof.
  cbv zeta.
  assert (H : buildHexString (fun _ => None) (str "192.168.0.0/24") (str "192.168.0.1")
              = (str "0x18c0a800c0a80001", None)) by reflexivity.
  split; [exact H |].
  exact (C2_emitted_bytes _ _ _ _ H).
Defined.

(** C2 as it is stated fails.  The network address of 192.168.0.77/25, the
    second result of [ParseCIDR], is 192.168.0.0; the encoder emits the
    last byte 0x4d of the address as it is written, not 0x00. *)
Lemma C2_counterexample :
  let parseIPv6 := fun _ : gostring => @None (list byte * gostring) in
  let ip := net.IPv4 xc0 xa8 x00 x4d in
  let ipNet := net.mkIPNet [xc0; xa8; x00; x00] [xff; xff; xff; x80] in
  net.ParseCIDR parseIPv6 (str "192.168.0.77/25") = Some (ip, ipNet)
  /\ buildHexString parseIPv6 (str "192.168.0.77/25") (str "10.0.0.1")
     = (str "0x19c0a8004d0a000001", None)
  /\ stream_bytes (str "0x19c0a8004d0a000001")
     = ([x19; xc0; xa8; x00; x4d; x0a; x00; x00; x01], None)
  /\ [x19; xc0; xa8; x00; x4d; x0a; x00; x00; x01]
     <> [x19] ++ slice (net.IPNet_IP ipNet) 0 4 ++ [x0a; x00; x00; x01].
Proof.
  cbv zeta. repeat (split; [reflexivity |]). discriminate.
Qed.

(* ------------------------------------------------------------------ *)
(** ** The text of an IPv4 address *)

Lemma appendDecimal_cons (a : byte) :
  exists c r, net.appendDecimal a = c :: r.
Proof. destruct a; eexists; eexists; reflexivity. Qed.

Lemma appendDecimal_no_slash (a : byte) :
  Forall (fun c => byte_eqb c "/" = false) (net.appendDecimal a).
Proof. destruct a; repeat constructor. Qed.

Lemma ParseAddr_scan_field (parseIPv6 : gostring -> option (list byte * gostring))
    (a : byte) (s rest : gostring) :
  net.ParseAddr_scan parseIPv6 s (net.appendDecimal a ++ "."%byte :: rest)
  = net.parseIPv4 s.
Proof. destruct a; reflexivity. Qed.

(** One field and the dot behind it: the field is stored and the loop goes
    on with the next field. *)
Lemma parseIPv4Fields_loop_field (a : byte) (prev : option byte) (pos : Z)
    (fields : list byte) (c : byte) (rest : gostring) :
  pos = 0 \/ pos = 1 \/ pos = 2 ->
  net.parseIPv4Fields_loop (net.appendDecimal a ++ "."%byte :: c :: rest)
    prev 0 pos 0 fields
  = net.parseIPv4Fields_loop (c :: rest) (Some "."%byte) 0 (pos + 1) 0
      (net.set fields pos a).
Proof. intros [-> | [-> | ->]]; destruct a; reflexivity. Qed.

Lemma parseIPv4Fields_loop_last (d : byte) (prev : option byte)
    (fields : list byte) :
  net.parseIPv4Fields_loop (net.appendDecimal d) prev 0 3 0 fields
  = Some (byte_val d, 3, fields).
Proof. destruct d; reflexivity. Qed.

(** Parsing undoes printing. *)
Lemma parseIPv4Fields_IPv4_String (a b c d : byte) :
  net.parseIPv4Fields (net.IPv4_String a b c d) = Some [a; b; c; d].
Proof.
  unfold net.parseIPv4Fields, net.IPv4_String.
  destruct (appendDecimal_cons b) as (cb & rb & Eb).
  destruct (appendDecimal_cons c) as (cc & rc & Ec).
  destruct (appendDecimal_cons d) as (cd & rd & Ed).
  change (str ".") with ["."%byte]. cbn [app].
  rewrite Eb at 1. cbn [app].
  rewrite parseIPv4Fields_loop_field by auto.
  change (cb :: rb ++ ?x) with ((cb :: rb) ++ x). rewrite <- Eb.
  rewrite Ec at 1. cbn [app].
  rewrite parseIPv4Fields_loop_field by auto.
  change (cc :: rc ++ ?x) with ((cc :: rc) ++ x). rewrite <- Ec.
  rewrite Ed at 1. cbn [app].
  rewrite parseIPv4Fields_loop_field by auto.
  change (cd :: rd) with ((cd :: rd)). rewrite <- Ed.
  rewrite parseIPv4Fields_loop_last. cbn.
  now rewrite byte_of_Z_val.
Qed.

Lemma ParseAddr_IPv4_String (parseIPv6 : gostring -> option (list byte * gostring))
    (a b c d : byte) :
  net.ParseAddr parseIPv6 (net.IPv4_String a b c d) = Some (net.Addr4 [a; b; c; d]).
Proof.
  unfold net.ParseAddr.
  unfold net.IPv4_String at 2. change (str ".") with ["."%byte]. cbn [app].
  rewrite ParseAddr_scan_field. unfold net.parseIPv4.
  now rewrite parseIPv4Fields_IPv4_String.
Qed.

Lemma ParseIP_IPv4_String (parseIPv6 : gostring -> option (list byte * gostring))
    (a b c d : byte) :
  net.ParseIP parseIPv6 (net.IPv4_String a b c d) = Some (net.IPv4 a b c d).
Proof. unfold net.ParseIP. now rewrite ParseAddr_IPv4_String. Qed.

Lemma Cut_first (u v : gostring) (sep : byte) :
  Forall (fun c => byte_eqb c sep = false) u ->
  strings.Cut (u ++ sep :: v) sep = (u, v, true).
Proof.
  induction 1 as [| c u Hc _ IH]; cbn [app strings.Cut].
  - assert (E : byte_eqb sep sep = true) by now apply byte_eqb_eq.
    now rewrite E.
  - now rewrite Hc, IH.
Qed.

Lemma IPv4_String_no_slash (a b c d : byte) :
  Forall (fun c => byte_eqb c "/" = false) (net.IPv4_String a b c d).
Proof.
  unfold net.IPv4_String.
  repeat (apply Forall_app; split);
    try apply appendDecimal_no_slash; repeat constructor.
Qed.

Lemma dtoi_Sprintf_d (p : Z) :
  0 <= p <= 32 -> net.dtoi (fmt.Sprintf_d p) = (p, len (fmt.Sprintf_d p), true).
Proof.
  intros H.
  assert (C : forallb (fun p => let '(n, i, ok) := net.dtoi (fmt.Sprintf_d p) in
                                (n =? p) && (i =? len (fmt.Sprintf_d p)) && ok)
                (map Z.of_nat (seq 0 33)) = true) by (vm_compute; reflexivity).
  pose proof (Z_range_forallb _ _ C p ltac:(lia)) as E. cbv beta in E.
  destruct (net.dtoi (fmt.Sprintf_d p)) as [[n i] ok].
  apply andb_true_iff in E as [E E3]. apply andb_true_iff in E as [E1 E2].
  apply Z.eqb_eq in E1, E2. congruence.
Qed.

(** [ParseCIDR] on the canonical text of an IPv4 prefix. *)
Lemma ParseCIDR_canonical (parseIPv6 : gostring -> option (list byte * gostring))
    (a b c d : byte) (p : Z) :
  0 <= p <= 32 ->
  net.ParseCIDR parseIPv6 (fmt.Sprintf_s_slash_d (net.IPv4_String a b c d) p)
  = Some (net.IPv4 a b c d,
          net.mkIPNet (net.Mask (net.IPv4 a b c d) (net.CIDRMask p 32))
                      (net.CIDRMask p 32)).
Proof.
  intros H. unfold net.ParseCIDR, fmt.Sprintf_s_slash_d.
  change (str "/") with ["/"%byte]. cbn [app].
  rewrite (Cut_first _ _ _ (IPv4_String_no_slash a b c d)). cbn [negb].
  rewrite ParseAddr_IPv4_String. cbn [net.Zone len length Z.of_nat Z.eqb negb].
  rewrite (dtoi_Sprintf_d p H). cbn [negb orb net.BitLen].
  rewrite Z.eqb_refl, Z.gtb_ltb. cbn [negb orb].
  destruct (Z.ltb_spec p 0); [lia |].
  destruct (Z.ltb_spec 32 p); [lia |].
  reflexivity.
Qed.

Lemma EncodeToString_app (x y : list byte) :
  hex.EncodeToString (x ++ y) = hex.EncodeToString x ++ hex.EncodeToString y.
Proof.
  induction x as [| v x IH]; [reflexivity |].
  cbn [app hex.EncodeToString]. now rewrite IH.
Qed.

(** The encoder on the canonical text of a route. *)
Lemma buildHexString_canonical (parseIPv6 : gostring -> option (list byte * gostring))
    (p : Z) (a b c d g1 g2 g3 g4 : byte) :
  0 <= p <= 32 ->
  buildHexString parseIPv6
    (fmt.Sprintf_s_slash_d (net.IPv4_String a b c d) p)
    (net.IPv4_String g1 g2 g3 g4)
  = (str "0x" ++ hex.EncodeToString
       ([byte_of_Z p] ++ firstn (Z.to_nat (cidrPrefixBytes p)) [a; b; c; d]
        ++ [g1; g2; g3; g4]), None).
Proof.
  intros H. unfold buildHexString.
  rewrite (ParseCIDR_canonical parseIPv6 a b c d p H). cbn [net.IPNet_Mask].
  rewrite (Size_CIDRMask p 32 (or_introl eq_refl) H).
  rewrite ParseIP_IPv4_String.
  assert (Hn : 0 <= cidrPrefixBytes p <= 4).
  { destruct (Z.eq_dec p 0) as [-> | Hnz]; [vm_compute; split; congruence |].
    rewrite cidrPrefixBytes_ceil by lia.
    split; [apply Z.div_pos; lia |].
    apply Z.lt_succ_r, Z.div_lt_upper_bound; lia. }
  unfold ipToHex. rewrite !To4_IPv4, !Z.gtb_ltb.
  destruct (Z.ltb_spec (cidrPrefixBytes p) 0); [lia |].
  destruct (Z.ltb_spec 4 (cidrPrefixBytes p)); [lia |].
  change (4 <? 0) with false. change (4 <? 4) with false. cbn [orb].
  rewrite Sprintf_02x_byte by lia. rewrite slice_0.
  change (slice [g1; g2; g3; g4] 0 (Z.to_nat 4)) with [g1; g2; g3; g4].
  rewrite <- !EncodeToString_app. reflexivity.
Qed.

(* ------------------------------------------------------------------ *)
(** ** Round trip *)

(** C1: for a route with a prefix length in [0,32] whose network bytes
    beyond the first [ceil(prefixLength / 8)] are zero, the encoder accepts
    the text of the route, and the decoder turns the encoder's output into
    exactly one record: the CIDR text and the gateway text of the route,
    and the encoder's output itself as the record's hex string. *)
Theorem C1_round_trip (parseIPv6 : gostring -> option (list byte * gostring))
    (p : Z) (a b c d g1 g2 g3 g4 : byte) :
  0 <= p <= 32 ->
  skipn (Z.to_nat (cidrPrefixBytes p)) [a; b; c; d]
    = repeat x00 (4 - Z.to_nat (cidrPrefixBytes p)) ->
  let target := fmt.Sprintf_s_slash_d (net.IPv4_String a b c d) p in
  let route := net.IPv4_String g1 g2 g3 g4 in
  exists hexStr,
    buildHexString parseIPv6 target route = (hexStr, None)
    /\ parseHexStream hexStr = ([mkpair target route hexStr []], None).
Proof.
  intros Hp Hz target route.
  eexists. split; [apply buildHexString_canonical; exact Hp |].
  rewrite parseHexStream_records, stream_bytes_encoded.
  cbn [app]. rewrite records_cons. cbv zeta.
  rewrite byte_val_of_Z by lia.
  assert (Hn : 0 <= cidrPrefixBytes p <= 4).
  { destruct (Z.eq_dec p 0) as [-> | Hnz]; [vm_compute; split; congruence |].
    rewrite cidrPrefixBytes_ceil by lia.
    split; [apply Z.div_pos; lia |].
    apply Z.lt_succ_r, Z.div_lt_upper_bound; lia. }
  unfold record_of. rewrite byte_val_of_Z by lia.
  subst target route.
  destruct (Z.to_nat (cidrPrefixBytes p)) as [| [| [| [| [| n]]]]] eqn:En;
    [ | | | | | lia];
    cbn [repeat Nat.sub skipn] in Hz; try (injection Hz; intros; subst);
    reflexivity.
Qed.

Lemma C1_round_trip_witness :
  let parseIPv6 := fun _ : gostring => @None (list byte * gostring) in
  0 <= 24 <= 32
  /\ skipn (Z.to_nat (cidrPrefixBytes 24)) [xc0; xa8; x00; x00]
     = repeat x00 (4 - Z.to_nat (cidrPrefixBytes 24))
  /\ exists hexStr,
       buildHexString parseIPv6 (str "192.168.0.0/24") (str "192.168.0.1")
       = (hexStr, None)
       /\ parseHexStream hexStr
          = ([mkpair (str "192.168.0.0/24") (str "192.168.0.1") hexStr []], None).
Proof.
  cbv zeta.
  assert (H1 : 0 <= 24 <= 32) by lia.
  assert (H2 : skipn (Z.to_nat (cidrPrefixBytes 24)) [xc0; xa8; x00; x00]
               = repeat x00 (4 - Z.to_nat (cidrPrefixBytes 24))) by reflexivity.
  split; [exact H1 |]. split; [exact H2 |].
  exact (C1_round_trip (fun _ => None) 24 xc0 xa8 x00 x00 xc0 xa8 x00 x01 H1 H2).
Defined.

(** The scenarios of the encoder and of the decoder. *)
Example buildHexString_scenarios :
  let parseIPv6 := fun _ : gostring => @None (list byte * gostring) in
  buildHexString parseIPv6 (str "192.168.0.0/24") (str "192.168.0.1")
    = (str "0x18c0a800c0a80001", None)
  /\ buildHexString parseIPv6 (str "10.0.0.0/0") (str "10.0.0.1")
    = (str "0x000a000001", None)
  /\ buildHexString parseIPv6 (str "not-a-cidr") (str "10.0.0.1")
    = ([], Some (invalid_target_CIDR (str "not-a-cidr")))
  /\ parseHexStream (str "0x18c0a800c0a80001")
    = ([mkpair (str "192.168.0.0/24") (str "192.168.0.1")
          (str "0x18c0a800c0a80001") []], None)
  /\ parseHexStream (str "0xzz")
    = ([], Some (invalid_hex_string (hex.InvalidByteError "z"))).
Proof. cbv zeta. repeat split. Qed.

(* ------------------------------------------------------------------ *)
(** ** UTF-8 *)

Lemma first_spec (b : byte) (sz lo hi : Z) :
  utf8.first b = Some (sz, lo, hi) ->
  (sz = 2 \/ sz = 3 \/ sz = 4) /\ 0x80 <= lo /\ hi <= 0xBF.
Proof.
  unfold utf8.first.
  repeat match goal with
         | |- context [if ?c then _ else _] => destruct c
         end;
    intros H; try discriminate; injection H as <- <- <-; lia.
Qed.


Lemma DecodeRune_size (s : gostring) :
  s <> [] ->
  1 <= snd (utf8.DecodeRuneInString s) <= len s.
Proof.
  destruct s as [| s0 s']; [congruence |]. intros _.
  unfold utf8.DecodeRuneInString, len.
  destruct (byte_val s0 <? utf8.RuneSelf); [cbn [snd length]; lia |].
  destruct (utf8.first s0) as [[[sz lo] hi] |] eqn:F; [| cbn [snd length]; lia].
  destruct (first_spec _ _ _ _ F) as (Hsz & _ & _).
  destruct (Z.ltb_spec (Z.of_nat (length (s0 :: s'))) sz) as [Hl | Hl];
    [cbn [snd length]; lia |].
  split_ifs; cbn [snd length] in *; lia.
Qed.

(** Bytes behind a text never change its first rune when they do not begin
    with a continuation byte. *)
Lemma DecodeRune_app (u t : gostring) :
  u <> [] -> starts_rune t ->
  utf8.DecodeRuneInString (u ++ t) = utf8.DecodeRuneInString u.
Proof.
  intros Hu Ht.
  destruct t as [| t0 t']; [now rewrite app_nil_r |].
  cbn [starts_rune] in Ht. unfold continuation in Ht.
  assert (Ht0 : byte_val t0 < 0x80 \/ 0xBF < byte_val t0).
  { apply andb_false_iff in Ht as [H | H];
      [apply Z.leb_gt in H | apply Z.leb_gt in H]; lia. }
  clear Ht.
  destruct u as [| u0 u']; [congruence |]. clear Hu.
  unfold utf8.DecodeRuneInString. cbn [app].
  destruct (byte_val u0 <? utf8.RuneSelf); [reflexivity |].
  destruct (utf8.first u0) as [[[sz lo] hi] |] eqn:F; [| reflexivity].
  destruct (first_spec _ _ _ _ F) as (Hsz & Hlo & Hhi).
  destruct u' as [| u1 [| u2 [| u3 u']]]; cbn [app length index nth];
    rewrite ?length_app; cbn [length];
    destruct Hsz as [-> | [-> | ->]];
    repeat match goal with
           | |- context [Z.ltb ?a ?b] => destruct (Z.ltb_spec a b); try lia
           | |- context [Z.leb ?a ?b] => destruct (Z.leb_spec a b); try lia
           end;
    cbn [orb]; reflexivity.
Qed.

(** A text that is exactly one well-formed rune still decodes to that rune
    with any bytes behind it. *)
Lemma DecodeRune_complete (c t : gostring) (r : Z) :
  utf8.DecodeRuneInString c = (r, len c) -> r <> utf8.RuneError ->
  utf8.DecodeRuneInString (c ++ t) = (r, len c).
Proof.
  intros H Hr.
  destruct c as [| c0 c']; [injection H as <-; congruence |].
  rewrite <- H. revert H.
  unfold utf8.DecodeRuneInString, len. cbn [app].
  destruct (byte_val c0 <? utf8.RuneSelf); [reflexivity |].
  destruct (utf8.first c0) as [[[sz lo] hi] |] eqn:F; [| reflexivity].
  destruct (first_spec _ _ _ _ F) as (Hsz & Hlo & Hhi).
  destruct c' as [| c1 [| c2 [| c3 c']]]; cbn [app length index nth];
    rewrite ?length_app; cbn [length];
    destruct Hsz as [-> | [-> | ->]];
    repeat match goal with
           | |- context [Z.ltb ?a ?b] => destruct (Z.ltb_spec a b); try lia
           | |- context [Z.leb ?a ?b] => destruct (Z.leb_spec a b); try lia
           end;
    cbn [orb]; intros E; try reflexivity;
    exfalso; injection E; intros; first [lia | congruence].
Qed.


Lemma index_app_r (p c : list byte) (k : Z) :
  0 <= k -> index (p ++ c) (Z.to_nat (len p + k)) = index c (Z.to_nat k).
Proof.
  intros H. unfold index, len.
  replace (Z.to_nat (Z.of_nat (length p) + k)) with (length p + Z.to_nat k)%nat by lia.
  now rewrite app_nth2_plus.
Qed.

Lemma slice_app_r (p c : list byte) :
  slice (p ++ c) (Z.to_nat (len p)) (Z.to_nat (len p + len c)) = c.
Proof.
  unfold len.
  replace (Z.to_nat (Z.of_nat (length p))) with (length p + 0)%nat by lia.
  replace (Z.to_nat (Z.of_nat (length p) + Z.of_nat (length c)))
    with (length p + length c)%nat by lia.
  rewrite slice_app_mid, slice_0. apply firstn_all.
Qed.

(** The last rune of a text that ends with a byte of ASCII. *)
Lemma DecodeLastRune_ascii (p : gostring) (a : byte) :
  byte_val a < utf8.RuneSelf ->
  utf8.DecodeLastRuneInString (p ++ [a]) = (byte_val a, 1).
Proof.
  intros Ha. unfold utf8.DecodeLastRuneInString.
  fold (len (p ++ [a])). rewrite len_app. change (len [a]) with 1.
  pose proof (len_nonneg p).
  destruct (Z.eqb_spec (len p + 1) 0); [lia |].
  replace (len p + 1 - 1) with (len p + 0) by lia.
  rewrite index_app_r by lia. norm_index.
  destruct (Z.ltb_spec (byte_val a) utf8.RuneSelf); [reflexivity | lia].
Qed.

(** The last rune of a text that ends with a two-byte sequence. *)
Lemma DecodeLastRune_2 (p : gostring) (l x : byte) (r : Z) :
  utf8.RuneStart l = true -> utf8.RuneSelf <= byte_val x ->
  utf8.DecodeRuneInString [l; x] = (r, 2) ->
  utf8.DecodeLastRuneInString (p ++ [l; x]) = (r, 2).
Proof.
  intros Hl Hx Hd. unfold utf8.DecodeLastRuneInString.
  fold (len (p ++ [l; x])). rewrite len_app. change (len [l; x]) with 2.
  pose proof (len_nonneg p).
  destruct (Z.eqb_spec (len p + 2) 0); [lia |].
  replace (len p + 2 - 1) with (len p + 1) by lia.
  rewrite index_app_r by lia. norm_index.
  destruct (Z.ltb_spec (byte_val x) utf8.RuneSelf); [lia |].
  replace (len p + 1 - 1) with (len p + 0) by lia.
  cbn [utf8.find_start].
  destruct (Z.ltb_spec (len p + 0) (Z.max (len p + 2 - utf8.UTFMax) 0));
    [unfold utf8.UTFMax in *; lia |].
  rewrite index_app_r by lia. norm_index. rewrite Hl.
  replace (Z.max (len p + 0) 0) with (len p) by lia.
  change 2 with (len [l; x]) at 1. rewrite slice_app_r, Hd.
  destruct (Z.eqb_spec (len p + 2) (len p + 2)); [reflexivity | lia].
Qed.

(** The last rune of a text that ends with a three-byte sequence. *)
Lemma DecodeLastRune_3 (p : gostring) (l x y : byte) (r : Z) :
  utf8.RuneStart l = true -> utf8.RuneStart x = false ->
  utf8.RuneSelf <= byte_val y ->
  utf8.DecodeRuneInString [l; x; y] = (r, 3) ->
  utf8.DecodeLastRuneInString (p ++ [l; x; y]) = (r, 3).
Proof.
  intros Hl Hx Hy Hd. unfold utf8.DecodeLastRuneInString.
  fold (len (p ++ [l; x; y])). rewrite len_app. change (len [l; x; y]) with 3.
  pose proof (len_nonneg p).
  destruct (Z.eqb_spec (len p + 3) 0); [lia |].
  replace (len p + 3 - 1) with (len p + 2) by lia.
  rewrite index_app_r by lia. norm_index.
  destruct (Z.ltb_spec (byte_val y) utf8.RuneSelf); [lia |].
  replace (len p + 2 - 1) with (len p + 1) by lia.
  cbn [utf8.find_start].
  destruct (Z.ltb_spec (len p + 1) (Z.max (len p + 3 - utf8.UTFMax) 0));
    [unfold utf8.UTFMax in *; lia |].
  rewrite index_app_r by lia. norm_index.
  rewrite Hx.
  replace (len p + 1 - 1) with (len p + 0) by lia.
  destruct (Z.ltb_spec (len p + 0) (Z.max (len p + 3 - utf8.UTFMax) 0));
    [unfold utf8.UTFMax in *; lia |].
  rewrite index_app_r by lia. norm_index. rewrite Hl.
  replace (Z.max (len p + 0) 0) with (len p) by lia.
  change 3 with (len [l; x; y]) at 1. rewrite slice_app_r, Hd.
  destruct (Z.eqb_spec (len p + 3) (len p + 3)); [reflexivity | lia].
Qed.


Lemma IsSpace_space_runes (r : Z) :
  unicode.IsSpace r = true <-> In r space_runes.
Proof.
  split.
  - unfold unicode.IsSpace. intros H.
    destruct (Z.leb_spec r 0xFF);
      repeat match type of H with
             | (_ || _) = true => apply orb_true_iff in H; destruct H as [H | H]
             | (_ && _) = true =>
                 let H1 := fresh in let H2 := fresh in
                 apply andb_true_iff in H; destruct H as [H1 H2];
                 apply Z.leb_le in H1, H2
             | (_ =? _) = true => apply Z.eqb_eq in H
             end;
      cbn [space_runes In]; lia.
  - cbn [space_runes In]. intros H.
    repeat destruct H as [<- | H]; try reflexivity. contradiction.
Qed.

(** The encoding of a rune of white space decodes to the rune from the left
    and from the right, whatever stands on its other side. *)
Lemma space_rune_encoding (r : Z) :
  unicode.IsSpace r = true ->
  utf8.EncodeRune r <> []
  /\ starts_rune (utf8.EncodeRune r)
  /\ (forall t, utf8.DecodeRuneInString (utf8.EncodeRune r ++ t)
                = (r, len (utf8.EncodeRune r)))
  /\ (forall p, utf8.DecodeLastRuneInString (p ++ utf8.EncodeRune r)
                = (r, len (utf8.EncodeRune r))).
Proof.
  intros H. apply IsSpace_space_runes in H. cbn [space_runes In] in H.
  repeat destruct H as [<- | H]; try contradiction;
    (split; [discriminate |]; split; [reflexivity |]; split;
     [ intros t; apply DecodeRune_complete; [reflexivity | discriminate]
     | intros p;
       match goal with
       | |- context [utf8.EncodeRune ?r] =>
           let c := eval vm_compute in (utf8.EncodeRune r) in
           change (utf8.EncodeRune r) with c
       end;
       first [ apply (DecodeLastRune_ascii p)
             | apply (DecodeLastRune_2 p)
             | apply (DecodeLastRune_3 p) ];
       first [ reflexivity | vm_compute; congruence ] ]).
Qed.

(* ------------------------------------------------------------------ *)
(** ** Trimming white space *)

Lemma TrimLeftFunc_loop_fuel (f : Z -> bool) (f1 : nat) :
  forall (f2 : nat) (s : gostring),
    (length s <= f1)%nat -> (length s <= f2)%nat ->
    strings.TrimLeftFunc_loop f1 s f = strings.TrimLeftFunc_loop f2 s f.
Proof.
  induction f1 as [| f1 IH]; intros f2 s H1 H2.
  - destruct s; [| simpl in H1; lia]. now destruct f2.
  - destruct f2 as [| f2]; [destruct s; [reflexivity | simpl in H2; lia] |].
    destruct s as [| c s']; [reflexivity |].
    cbn [strings.TrimLeftFunc_loop].
    pose proof (DecodeRune_size (c :: s') ltac:(discriminate)) as Hs.
    destruct (utf8.DecodeRuneInString (c :: s')) as [r size].
    cbn [snd] in Hs. unfold len in Hs.
    destruct (f r); [| reflexivity].
    apply IH; rewrite length_skipn; cbn [length] in *; lia.
Qed.

(** The equation of [TrimLeftFunc]. *)
Lemma TrimLeftFunc_eq (f : Z -> bool) (s : gostring) :
  strings.TrimLeftFunc s f =
    match s with
    | [] => []
    | _ :: _ =>
        let '(r, size) := utf8.DecodeRuneInString s in
        if f r then strings.TrimLeftFunc (skipn (Z.to_nat size) s) f else s
    end.
Proof.
  unfold strings.TrimLeftFunc.
  destruct s as [| c s']; [reflexivity |].
  cbn [length strings.TrimLeftFunc_loop].
  pose proof (DecodeRune_size (c :: s') ltac:(discriminate)) as Hs.
  destruct (utf8.DecodeRuneInString (c :: s')) as [r size].
  cbn [snd] in Hs. unfold len in Hs.
  destruct (f r); [| reflexivity].
  apply TrimLeftFunc_loop_fuel; rewrite ?length_skipn; cbn [length] in *; lia.
Qed.

Lemma starts_rune_app (c t : gostring) :
  c <> [] -> starts_rune c -> starts_rune (c ++ t).
Proof. destruct c; [congruence | trivial]. Qed.

Lemma whitespace_starts_rune (w : gostring) : whitespace w -> starts_rune w.
Proof.
  intros (rs & Hrs & ->). destruct Hrs as [| r rs Hr _]; [exact I |].
  cbn [flat_map].
  destruct (space_rune_encoding r Hr) as (Hne & Hst & _).
  now apply starts_rune_app.
Qed.

(** White space in front of a text is dropped. *)
Lemma TrimLeftFunc_whitespace (w t : gostring) :
  whitespace w ->
  strings.TrimLeftFunc (w ++ t) unicode.IsSpace
  = strings.TrimLeftFunc t unicode.IsSpace.
Proof.
  intros (rs & Hrs & ->).
  induction Hrs as [| r rs Hr _ IH]; [reflexivity |].
  cbn [flat_map]. rewrite <- app_assoc.
  destruct (space_rune_encoding r Hr) as (Hne & _ & Hd & _).
  rewrite TrimLeftFunc_eq.
  destruct (utf8.EncodeRune r ++ flat_map utf8.EncodeRune rs ++ t) as [| c0 rest] eqn:E.
  - destruct (utf8.EncodeRune r); [congruence | discriminate].
  - rewrite <- E, Hd, Hr.
    unfold len. rewrite Nat2Z.id, skipn_app, skipn_all, Nat.sub_diag.
    exact IH.
Qed.

(** White space behind a text stays behind what is left of the text, unless
    the whole text is white space. *)
Lemma TrimLeftFunc_app_whitespace (s w : gostring) :
  whitespace w ->
  strings.TrimLeftFunc (s ++ w) unicode.IsSpace
  = match strings.TrimLeftFunc s unicode.IsSpace with
    | [] => []
    | c :: rest => (c :: rest) ++ w
    end.
Proof.
  intros Hw.
  remember (length s) as n eqn:Hn. revert s Hn.
  induction n as [n IH] using lt_wf_ind. intros s Hn.
  destruct s as [| c s'].
  - cbn [app]. rewrite <- (app_nil_r w), TrimLeftFunc_whitespace by assumption.
    reflexivity.
  - rewrite (TrimLeftFunc_eq _ (c :: s')), TrimLeftFunc_eq.
    cbn [app].
    change (c :: s' ++ w) with ((c :: s') ++ w).
    rewrite DecodeRune_app by (try discriminate; now apply whitespace_starts_rune).
    pose proof (DecodeRune_size (c :: s') ltac:(discriminate)) as Hs.
    destruct (utf8.DecodeRuneInString (c :: s')) as [r size].
    cbn [snd] in Hs. unfold len in Hs.
    destruct (unicode.IsSpace r); [| reflexivity].
    rewrite skipn_app.
    replace (Z.to_nat size - length (c :: s'))%nat with 0%nat by lia.
    cbn [skipn]. eapply IH; [| reflexivity].
    subst n. rewrite length_skipn. cbn [length] in *. lia.
Qed.

Lemma find_start_le (fuel : nat) (s : gostring) (lim : Z) :
  forall start, utf8.find_start fuel s start lim <= start.
Proof.
  induction fuel as [| fuel IH]; intros start; cbn [utf8.find_start]; [lia |].
  destruct (start <? lim); [lia |].
  destruct (utf8.RuneStart _); [lia |].
  specialize (IH (start - 1)). lia.
Qed.

Lemma DecodeLastRune_size (p : gostring) :
  p <> [] -> 1 <= snd (utf8.DecodeLastRuneInString p) <= len p.
Proof.
  intros Hp. unfold utf8.DecodeLastRuneInString. fold (len p).
  assert (He : 1 <= len p).
  { unfold len. destruct p; [congruence | cbn [length]; lia]. }
  destruct (Z.eqb_spec (len p) 0); [lia |].
  destruct (_ <? utf8.RuneSelf); [cbn [snd]; lia |].
  set (fs := utf8.find_start 4 p (len p - 1 - 1) (Z.max (len p - utf8.UTFMax) 0)).
  pose proof (find_start_le 4 p (Z.max (len p - utf8.UTFMax) 0) (len p - 1 - 1)) as Hfs.
  fold fs in Hfs.
  destruct (utf8.DecodeRuneInString _) as [r size] eqn:E.
  destruct (Z.eqb_spec (Z.max fs 0 + size) (len p)) as [Heq | Hneq];
    cbn [negb snd]; lia.
Qed.

Lemma slice_app_l (s t : gostring) (i : Z) :
  0 <= i <= len s -> slice (s ++ t) 0 (Z.to_nat i) = slice s 0 (Z.to_nat i).
Proof.
  intros H. rewrite !slice_0, firstn_app.
  replace (Z.to_nat i - length s)%nat with 0%nat by (unfold len in H; lia).
  cbn [firstn]. apply app_nil_r.
Qed.

(** [lastIndexFunc] up to [i] does not look at the bytes from [i] on. *)
Lemma lastIndexFunc_app (f : Z -> bool) (fuel : nat) (s t : gostring) :
  forall i, 0 <= i <= len s ->
  strings.lastIndexFunc fuel (s ++ t) i f = strings.lastIndexFunc fuel s i f.
Proof.
  induction fuel as [| fuel IH]; intros i Hi; [reflexivity |].
  cbn [strings.lastIndexFunc].
  destruct (Z.ltb_spec 0 i); [| reflexivity].
  rewrite slice_app_l by assumption.
  assert (Hne : slice s 0 (Z.to_nat i) <> []).
  { intros C. apply (f_equal (@length byte)) in C.
    rewrite slice_0, length_firstn in C. unfold len in Hi. simpl in C. lia. }
  pose proof (DecodeLastRune_size _ Hne) as Hs.
  destruct (utf8.DecodeLastRuneInString _) as [r size]. cbn [snd] in Hs.
  assert (len (slice s 0 (Z.to_nat i)) = i).
  { unfold len in *. rewrite slice_0, length_firstn. lia. }
  destruct (f r); [| reflexivity].
  apply IH. lia.
Qed.

Lemma lastIndexFunc_fuel (f : Z -> bool) (s : gostring) (f1 : nat) :
  forall (f2 : nat) (i : Z),
    0 <= i <= len s -> i <= Z.of_nat f1 -> i <= Z.of_nat f2 ->
    strings.lastIndexFunc f1 s i f = strings.lastIndexFunc f2 s i f.
Proof.
  induction f1 as [| f1 IH]; intros f2 i Hi H1 H2.
  - destruct f2; [reflexivity |]. cbn [strings.lastIndexFunc].
    destruct (Z.ltb_spec 0 i); [lia | reflexivity].
  - destruct f2 as [| f2]; cbn [strings.lastIndexFunc];
      destruct (Z.ltb_spec 0 i); try reflexivity; [lia |].
    assert (Hne : slice s 0 (Z.to_nat i) <> []).
    { intros C. apply (f_equal (@length byte)) in C.
      rewrite slice_0, length_firstn in C. unfold len in Hi. simpl in C. lia. }
    pose proof (DecodeLastRune_size _ Hne) as Hs.
    destruct (utf8.DecodeLastRuneInString _) as [r size]. cbn [snd] in Hs.
    assert (len (slice s 0 (Z.to_nat i)) = i).
    { unfold len in *. rewrite slice_0, length_firstn. lia. }
    destruct (f r); [| reflexivity].
    apply IH; lia.
Qed.

Lemma lastIndexFunc_bound (f : Z -> bool) (s : gostring) (fuel : nat) :
  forall i j, 0 <= i <= len s ->
  strings.lastIndexFunc fuel s i f = Some j -> 0 <= j < i.
Proof.
  induction fuel as [| fuel IH]; intros i j Hi; [discriminate |].
  cbn [strings.lastIndexFunc].
  destruct (Z.ltb_spec 0 i); [| discriminate].
  assert (Hne : slice s 0 (Z.to_nat i) <> []).
  { intros C. apply (f_equal (@length byte)) in C.
    rewrite slice_0, length_firstn in C. unfold len in Hi. simpl in C. lia. }
  pose proof (DecodeLastRune_size _ Hne) as Hs.
  destruct (utf8.DecodeLastRuneInString _) as [r size]. cbn [snd] in Hs.
  assert (len (slice s 0 (Z.to_nat i)) = i).
  { unfold len in *. rewrite slice_0, length_firstn. lia. }
  destruct (f r).
  - intros E. apply IH in E; lia.
  - intros E. injection E as <-. lia.
Qed.

Lemma lastIndexFunc_space (p : gostring) (r : Z) :
  unicode.IsSpace r = true ->
  strings.lastIndexFunc (length (p ++ utf8.EncodeRune r)) (p ++ utf8.EncodeRune r)
    (len (p ++ utf8.EncodeRune r)) unicode.IsSpace
  = strings.lastIndexFunc (length p) p (len p) unicode.IsSpace.
Proof.
  intros Hr.
  destruct (space_rune_encoding r Hr) as (Hne & _ & _ & Hd).
  set (c := utf8.EncodeRune r) in *.
  assert (Hc : 1 <= len c) by (unfold len; destruct c; [congruence | cbn [length]; lia]).
  pose proof (len_nonneg p) as Hp.
  destruct (length (p ++ c)) as [| fuel] eqn:El.
  - rewrite length_app in El. unfold len in Hc. lia.
  - cbn [strings.lastIndexFunc].
    destruct (Z.ltb_spec 0 (len (p ++ c))); [| rewrite len_app in *; lia].
    replace (slice (p ++ c) 0 (Z.to_nat (len (p ++ c)))) with (p ++ c)
      by (rewrite slice_0; unfold len; rewrite Nat2Z.id; symmetry; apply firstn_all).
    rewrite Hd, Hr, len_app.
    replace (len p + len c - len c) with (len p) by lia.
    rewrite lastIndexFunc_app by lia.
    rewrite length_app in El.
    apply lastIndexFunc_fuel; unfold len in *; lia.
Qed.

(** White space at the end of a text is skipped by the backward search. *)
Lemma lastIndexFunc_whitespace (s w : gostring) :
  whitespace w ->
  strings.lastIndexFunc (length (s ++ w)) (s ++ w) (len (s ++ w)) unicode.IsSpace
  = strings.lastIndexFunc (length s) s (len s) unicode.IsSpace.
Proof.
  intros (rs & Hrs & ->).
  induction rs as [| r rs IH] using rev_ind.
  - cbn [flat_map]. now rewrite app_nil_r.
  - apply Forall_app in Hrs as [Hrs Hr]. apply Forall_inv in Hr.
    rewrite flat_map_app. cbn [flat_map]. rewrite app_nil_r, app_assoc.
    rewrite lastIndexFunc_space by assumption.
    now apply IH.
Qed.

(** White space behind a text is cut off with the white space the text ends
    with. *)
Lemma TrimRightFunc_whitespace (s w : gostring) :
  whitespace w ->
  strings.TrimRightFunc (s ++ w) unicode.IsSpace
  = strings.TrimRightFunc s unicode.IsSpace.
Proof.
  intros Hw. unfold strings.TrimRightFunc.
  fold (len (s ++ w)). fold (len s).
  rewrite lastIndexFunc_whitespace by assumption.
  destruct (strings.lastIndexFunc (length s) s (len s) unicode.IsSpace) as [i |] eqn:E;
    [| reflexivity].
  pose proof (len_nonneg s) as Hs0.
  pose proof (lastIndexFunc_bound unicode.IsSpace s (length s) (len s) i
                ltac:(lia) E) as Hi.
  assert (Hidx : index (s ++ w) (Z.to_nat i) = index s (Z.to_nat i)).
  { unfold index. apply app_nth1. unfold len in Hi. lia. }
  rewrite Hidx.
  assert (Hsk : skipn (Z.to_nat i) s <> []).
  { intros C. apply (f_equal (@length byte)) in C.
    rewrite length_skipn in C. unfold len in Hi. simpl in C. lia. }
  destruct (utf8.RuneSelf <=? byte_val (index s (Z.to_nat i))).
  - rewrite skipn_app.
    replace (Z.to_nat i - length s)%nat with 0%nat by (unfold len in Hi; lia).
    cbn [skipn].
    rewrite DecodeRune_app by (try assumption; now apply whitespace_starts_rune).
    pose proof (DecodeRune_size _ Hsk) as Hs.
    destruct (utf8.DecodeRuneInString (skipn (Z.to_nat i) s)) as [r wid].
    cbn [snd] in Hs.
    apply slice_app_l.
    unfold len in *. rewrite length_skipn in Hs. lia.
  - apply slice_app_l. lia.
Qed.

(** White space around a text does not change what [TrimFunc] leaves. *)
Lemma TrimFunc_whitespace (w1 s w2 : gostring) :
  whitespace w1 -> whitespace w2 ->
  strings.TrimFunc (w1 ++ s ++ w2) unicode.IsSpace
  = strings.TrimFunc s unicode.IsSpace.
Proof.
  intros H1 H2. unfold strings.TrimFunc.
  rewrite TrimLeftFunc_whitespace by assumption.
  rewrite TrimLeftFunc_app_whitespace by assumption.
  destruct (strings.TrimLeftFunc s unicode.IsSpace) as [| c rest]; [reflexivity |].
  now apply TrimRightFunc_whitespace.
Qed.

Lemma IsSpace_ascii (c : byte) :
  byte_val c < utf8.RuneSelf ->
  unicode.IsSpace (byte_val c) = strings.asciiSpace c.
Proof.
  unfold utf8.RuneSelf, unicode.IsSpace, strings.asciiSpace. intros H.
  destruct (Z.leb_spec (byte_val c) 255); [| lia].
  destruct (Z.eqb_spec (byte_val c) 133); [lia |].
  destruct (Z.eqb_spec (byte_val c) 160); [lia |].
  now rewrite !orb_false_r.
Qed.

Lemma whitespace_ascii (c : byte) :
  byte_val c < utf8.RuneSelf -> strings.asciiSpace c = true -> whitespace [c].
Proof.
  intros H1 H2. exists [byte_val c]. split.
  - constructor; [| constructor]. now rewrite IsSpace_ascii.
  - cbn [flat_map]. unfold utf8.EncodeRune.
    pose proof (byte_val_range c).
    destruct (Z.leb_spec 0 (byte_val c)); [| lia].
    destruct (Z.leb_spec (byte_val c) 127); [| unfold utf8.RuneSelf in H1; lia].
    cbn [andb app]. now rewrite byte_of_Z_val.
Qed.

Lemma TrimLeftFunc_plain (c : byte) (rest : gostring) :
  byte_val c < utf8.RuneSelf -> strings.asciiSpace c = false ->
  strings.TrimLeftFunc (c :: rest) unicode.IsSpace = c :: rest.
Proof.
  intros H1 H2. rewrite TrimLeftFunc_eq. unfold utf8.DecodeRuneInString.
  destruct (Z.ltb_spec (byte_val c) utf8.RuneSelf); [| lia].
  now rewrite IsSpace_ascii, H2.
Qed.

Lemma TrimRightFunc_plain (s : gostring) (c : byte) :
  byte_val c < utf8.RuneSelf -> strings.asciiSpace c = false ->
  strings.TrimRightFunc (s ++ [c]) unicode.IsSpace = s ++ [c].
Proof.
  intros H1 H2. unfold strings.TrimRightFunc.
  fold (len (s ++ [c])).
  assert (Hl : len (s ++ [c]) = len s + 1) by now rewrite len_app.
  pose proof (len_nonneg s) as Hs.
  assert (Hfull : forall n, (length (s ++ [c]) <= n)%nat ->
                  slice (s ++ [c]) 0 n = s ++ [c]).
  { intros n Hn. rewrite slice_0. now apply firstn_all2. }
  destruct (length (s ++ [c])) as [| fuel] eqn:El;
    [rewrite length_app in El; simpl in El; lia |].
  cbn [strings.lastIndexFunc].
  destruct (Z.ltb_spec 0 (len (s ++ [c]))); [| lia].
  rewrite Hfull by (unfold len; lia).
  rewrite DecodeLastRune_ascii, IsSpace_ascii, H2 by assumption.
  rewrite Hl. replace (len s + 1 - 1) with (len s + 0) by lia.
  rewrite index_app_r by lia. norm_index.
  destruct (Z.leb_spec utf8.RuneSelf (byte_val c)); [lia |].
  apply Hfull. unfold len in *. lia.
Qed.

Lemma TrimSpace_stop_TrimRightFunc (s : gostring) :
  strings.TrimSpace_stop (rev s) = strings.TrimRightFunc s unicode.IsSpace.
Proof.
  induction s as [| c s IH] using rev_ind; [reflexivity |].
  rewrite rev_app_distr. cbn [rev app strings.TrimSpace_stop].
  destruct (Z.leb_spec utf8.RuneSelf (byte_val c)) as [Hc | Hc].
  - cbn [rev]. now rewrite rev_involutive.
  - destruct (strings.asciiSpace c) eqn:Ha.
    + rewrite IH. symmetry. apply TrimRightFunc_whitespace.
      now apply whitespace_ascii.
    + cbn [rev]. rewrite rev_involutive. symmetry.
      now apply TrimRightFunc_plain.
Qed.

(** [TrimSpace] with its two loops for ASCII is [TrimFunc] with
    [unicode.IsSpace]. *)
Lemma TrimSpace_TrimFunc (s : gostring) :
  strings.TrimSpace s = strings.TrimFunc s unicode.IsSpace.
Proof.
  unfold strings.TrimSpace.
  induction s as [| c s IH]; [reflexivity |].
  cbn [strings.TrimSpace_start].
  destruct (Z.leb_spec utf8.RuneSelf (byte_val c)) as [Hc | Hc]; [reflexivity |].
  destruct (strings.asciiSpace c) eqn:Ha.
  - rewrite IH. unfold strings.TrimFunc.
    change (c :: s) with ([c] ++ s).
    rewrite TrimLeftFunc_whitespace by now apply whitespace_ascii.
    reflexivity.
  - rewrite TrimSpace_stop_TrimRightFunc. unfold strings.TrimFunc.
    now rewrite TrimLeftFunc_plain.
Qed.

(* ------------------------------------------------------------------ *)
(** ** White space around the blob *)

Lemma whitespace_nil : whitespace [].
Proof. exists []. split; [constructor | reflexivity]. Qed.

(** C9: the decoder trims its input before it looks for the prefix and
    decodes the digits, so white space before and behind a text does not
    change the result, and a text of white space alone decodes to no record
    and no error. *)
Theorem C9_whitespace_trimmed (w1 w2 hexStr : gostring) :
  whitespace w1 -> whitespace w2 ->
  strings.TrimSpace (w1 ++ hexStr ++ w2) = strings.TrimSpace hexStr
  /\ parseHexStream (w1 ++ hexStr ++ w2) = parseHexStream hexStr
  /\ parseHexStream w1 = ([], None).
Proof.
  intros H1 H2.
  assert (E : strings.TrimSpace (w1 ++ hexStr ++ w2) = strings.TrimSpace hexStr).
  { rewrite !TrimSpace_TrimFunc. now apply TrimFunc_whitespace. }
  split; [exact E |]. split.
  - unfold parseHexStream. now rewrite E.
  - assert (E1 : strings.TrimSpace w1 = []).
    { rewrite TrimSpace_TrimFunc, <- (app_nil_r w1).
      change (w1 ++ []) with (w1 ++ [] ++ []).
      now rewrite TrimFunc_whitespace by (try assumption; apply whitespace_nil). }
    unfold parseHexStream. rewrite E1. reflexivity.
Qed.

Lemma C9_whitespace_trimmed_witness :
  let w1 := [" "%byte; x09; xc2; xa0] in
  let w2 := [x0d; x0a; xe3; x80; x80] in
  let r := mkpair (str "192.168.0.0/24") (str "192.168.0.1") (str "0x18c0a800c0a80001") [] in
  whitespace w1 /\ whitespace w2
  /\ parseHexStream (w1 ++ str "0X18C0A800C0A80001" ++ w2) = ([r], None)
  /\ parseHexStream w1 = ([], None).
Proof.
  cbv zeta.
  assert (H1 : whitespace [" "%byte; x09; xc2; xa0]).
  { exists [0x20; 0x09; 0xA0]. split; [repeat constructor | reflexivity]. }
  assert (H2 : whitespace [x0d; x0a; xe3; x80; x80]).
  { exists [0x0D; 0x0A; 0x3000]. split; [repeat constructor | reflexivity]. }
  destruct (C9_whitespace_trimmed _ _ (str "0X18C0A800C0A80001") H1 H2)
    as (_ & E & E0).
  split; [exact H1 |]. split; [exact H2 |]. split; [| exact E0].
  exact (eq_trans E eq_refl).
Defined.

(* ------------------------------------------------------------------ *)
(** ** Truncation in the text of the blob *)

(** Dropping the last two digits of a hex text drops the last byte of what
    it decodes to. *)
Lemma DecodeString_removelast (h : gostring) :
  forall data, hex.DecodeString h = (data, None) ->
  hex.DecodeString (removelast (removelast h)) = (removelast data, None).
Proof.
  induction h as [| p | p q h IH] using list_ind_pairs; intros data H.
  - injection H as <-. reflexivity.
  - cbn in H. destruct (hex.fromHexChar p); discriminate.
  - cbn [hex.DecodeString] in H.
    destruct (hex.fromHexChar p) as [a |] eqn:Ep; [| discriminate].
    destruct (hex.fromHexChar q) as [b |] eqn:Eq; [| discriminate].
    destruct (hex.DecodeString h) as [d e] eqn:Ed.
    injection H as <- ->.
    destruct h as [| p' [| q' h']].
    + injection Ed as <-. reflexivity.
    + cbn in Ed. destruct (hex.fromHexChar p'); discriminate.
    + change (removelast (removelast (p :: q :: p' :: q' :: h')))
        with (p :: q :: removelast (removelast (p' :: q' :: h'))).
      cbn [hex.DecodeString]. rewrite Ep, Eq.
      rewrite (IH d eq_refl).
      destruct d as [| d0 d']; [| reflexivity].
      cbn [hex.DecodeString] in Ed.
      destruct (hex.fromHexChar p'); [| discriminate].
      destruct (hex.fromHexChar q'); [| discriminate].
      destruct (hex.DecodeString h'). discriminate.
Qed.

(** The truncation of C3 on the text of a canonical blob: without its last
    two digits the blob decodes to all records but the last, with the error
    of a record cut short. *)
Lemma parseHexStream_truncated_text (h : gostring) (rs : list pair) :
  hex_text h -> h <> [] ->
  parseHexStream (str "0x" ++ h) = (rs, None) ->
  parseHexStream (str "0x" ++ removelast (removelast h))
  = (removelast rs, Some not_enough_data_for_record).
Proof.
  intros Hh Hne Hp.
  assert (Hh' : hex_text (removelast (removelast h))).
  { assert (F : forall l : gostring, hex_text l -> hex_text (removelast l)).
    { intros l Hl. unfold hex_text in *. rewrite Forall_forall in *.
      intros c Hc. apply Hl.
      destruct l as [| x l] using rev_ind; [contradiction |].
      rewrite removelast_last in Hc. apply in_or_app. now left. }
    now apply F, F. }
  rewrite parseHexStream_records in *.
  rewrite (proj1 (proj2 (stream_bytes_hex_text _ Hh))) in Hp.
  rewrite (proj1 (proj2 (stream_bytes_hex_text _ Hh'))).
  destruct (hex.DecodeString h) as [data [e |]] eqn:Ed; [discriminate |].
  rewrite (DecodeString_removelast h data Ed).
  apply records_removelast; [| exact Hp].
  intros ->. destruct h as [| p [| q h']]; [congruence | |].
  - cbn in Ed. destruct (hex.fromHexChar p); discriminate.
  - cbn [hex.DecodeString] in Ed.
    destruct (hex.fromHexChar p); [| discriminate].
    destruct (hex.fromHexChar q); [| discriminate].
    destruct (hex.DecodeString h'). discriminate.
Qed.

(* ================================================================== *)
(** * Further properties of the codec *)

(* ------------------------------------------------------------------ *)
(** ** cidrPrefixBytes and ipToHex *)

(** X1: for every positive prefix below 2^53, where the conversion to
    float64 is exact, [cidrPrefixBytes] is the least number of bytes that
    hold [prefix] bits; it is at most four exactly when the prefix is at
    most 32. *)
Theorem X1_cidrPrefixBytes_least_bytes (prefix : Z) :
  0 < prefix < 2 ^ 53 ->
  8 * (cidrPrefixBytes prefix - 1) < prefix <= 8 * cidrPrefixBytes prefix
  /\ (cidrPrefixBytes prefix <= 4 <-> prefix <= 32).
Proof.
  intros H. rewrite cidrPrefixBytes_ceil by assumption.
  pose proof (Z.div_mod (prefix + 7) 8 ltac:(lia)).
  pose proof (Z.mod_pos_bound (prefix + 7) 8 ltac:(lia)).
  lia.
Qed.

Lemma X1_cidrPrefixBytes_witness :
  0 < 1000000 < 2 ^ 53
  /\ 8 * (cidrPrefixBytes 1000000 - 1) < 1000000 <= 8 * cidrPrefixBytes 1000000
  /\ (cidrPrefixBytes 1000000 <= 4 <-> 1000000 <= 32).
Proof.
  assert (H : 0 < 1000000 < 2 ^ 53) by (split; reflexivity).
  split; [exact H |].
  exact (X1_cidrPrefixBytes_least_bytes 1000000 H).
Defined.

Lemma EncodeToString_length (src : list byte) :
  length (hex.EncodeToString src) = (2 * length src)%nat.
Proof.
  induction src as [| v src IH]; [reflexivity |].
  cbn [hex.EncodeToString length]. rewrite IH. lia.
Qed.

(** X2: on an address with an IPv4 form and a count between 0 and 4,
    [ipToHex] succeeds with two hex digits for each of the first [bytes]
    bytes of that form, and nothing else: the digits decode back to these
    bytes. *)
Theorem X2_ipToHex_digits (ip v4 : net.IP) (bytes : Z) :
  net.To4 ip = Some v4 -> 0 <= bytes <= 4 ->
  exists h,
    ipToHex ip bytes = (h, None)
    /\ len h = 2 * bytes
    /\ hex_text h
    /\ hex.DecodeString h = (firstn (Z.to_nat bytes) v4, None).
Proof.
  intros Hv Hb. unfold ipToHex. rewrite Hv, Z.gtb_ltb.
  destruct (Z.ltb_spec bytes 0); [lia |].
  destruct (Z.ltb_spec 4 bytes); [lia |]. cbn [orb].
  eexists. split; [reflexivity |].
  pose proof (To4_length _ _ Hv) as Lv.
  rewrite slice_0. repeat split.
  - unfold len. rewrite EncodeToString_length, length_firstn. lia.
  - apply EncodeToString_hex_text.
  - apply DecodeString_EncodeToString.
Qed.

Lemma X2_ipToHex_witness :
  let ip := net.IPv4 xc0 xa8 x01 x4d in
  net.To4 ip = Some [xc0; xa8; x01; x4d] /\ 0 <= 3 <= 4
  /\ exists h,
       ipToHex ip 3 = (h, None) /\ len h = 2 * 3 /\ hex_text h
       /\ hex.DecodeString h = (firstn (Z.to_nat 3) [xc0; xa8; x01; x4d], None).
Proof.
  cbv zeta.
  assert (H1 : net.To4 (net.IPv4 xc0 xa8 x01 x4d) = Some [xc0; xa8; x01; x4d])
    by reflexivity.
  assert (H2 : 0 <= 3 <= 4) by lia.
  split; [exact H1 |]. split; [exact H2 |].
  exact (X2_ipToHex_digits _ _ 3 H1 H2).
Defined.

(* ------------------------------------------------------------------ *)
(** ** buildHexString *)

(** What the encoder returns when it succeeds. *)
Lemma buildHexString_inv (parseIPv6 : gostring -> option (list byte * gostring))
    (targetCIDR routeIP h : gostring) :
  buildHexString parseIPv6 targetCIDR routeIP = (h, None) ->
  exists n v4 gw g4,
    0 <= n <= 32 /\ length v4 = 4%nat /\ length g4 = 4%nat
    /\ net.ParseIP parseIPv6 routeIP = Some gw /\ net.To4 gw = Some g4
    /\ h = str "0x" ++ hex.EncodeToString
             ([byte_of_Z n] ++ firstn (Z.to_nat (cidrPrefixBytes n)) v4 ++ g4).
Proof.
  unfold buildHexString.
  destruct (net.ParseCIDR parseIPv6 targetCIDR) as [[ip ipNet] |] eqn:Ep;
    [| discriminate].
  destruct (ParseCIDR_inv _ _ _ _ Ep) as (n & bits & Hbits & Hn & ->).
  cbn [net.IPNet_Mask]. rewrite (Size_CIDRMask n bits Hbits Hn).
  destruct (ipToHex ip (cidrPrefixBytes n)) as [targetHex [e |]] eqn:Et;
    [discriminate |].
  destruct (net.ParseIP parseIPv6 routeIP) as [gw |] eqn:Er; [| discriminate].
  destruct (ipToHex gw 4) as [rHex [e |]] eqn:Eg; [discriminate |].
  intros H. injection H as <-.
  destruct (ipToHex_inv _ _ _ Et) as (v4 & Hv4 & Hk & ->).
  destruct (ipToHex_inv _ _ _ Eg) as (g4 & Hg4 & _ & ->).
  pose proof (To4_length _ _ Hv4) as Lv. pose proof (To4_length _ _ Hg4) as Lg.
  assert (Hones : 0 <= n <= 32).
  { destruct (Z.eq_dec n 0) as [-> | Hnz]; [lia |].
    rewrite cidrPrefixBytes_ceil in Hk by (destruct Hbits; lia).
    split; [lia |].
    destruct (Z.le_gt_cases n 32) as [? | Hgt]; [assumption |].
    assert (5 <= (n + 7) / 8) by (apply Z.div_le_lower_bound; lia). lia. }
  exists n, v4, gw, g4. repeat (split; [assumption || reflexivity |]).
  rewrite Sprintf_02x_byte by lia. rewrite !slice_0.
  replace (firstn (Z.to_nat 4) g4) with g4 by (symmetry; apply firstn_all2; lia).
  now rewrite <- !EncodeToString_app.
Qed.

(** X3: whatever the encoder accepts, the decoder accepts the encoder's
    output: it decodes without error to exactly one record, whose hex string
    is the encoder's output itself and whose route is the gateway in dotted
    decimal.  The output has between 12 and 20 bytes. *)
Theorem X3_encoder_output_decodes
    (parseIPv6 : gostring -> option (list byte * gostring))
    (targetCIDR routeIP h : gostring) :
  buildHexString parseIPv6 targetCIDR routeIP = (h, None) ->
  exists rec gw g1 g2 g3 g4,
    parseHexStream h = ([rec], None)
    /\ Hex rec = h /\ Error rec = []
    /\ net.ParseIP parseIPv6 routeIP = Some gw
    /\ net.To4 gw = Some [g1; g2; g3; g4]
    /\ Route rec = net.IPv4_String g1 g2 g3 g4
    /\ 12 <= len h <= 20.
Proof.
  intros H.
  destruct (buildHexString_inv _ _ _ _ H) as (n & v4 & gw & g4 & Hn & Lv & Lg & Hp & Hg & ->).
  destruct g4 as [| g1 [| g2 [| g3 [| g4 [| ? ?]]]]]; try discriminate.
  set (k := Z.to_nat (cidrPrefixBytes n)).
  assert (Hk : (k <= 4)%nat).
  { unfold k. destruct (Z.eq_dec n 0) as [-> | Hnz]; [vm_compute; lia |].
    rewrite cidrPrefixBytes_ceil by lia.
    assert ((n + 7) / 8 < 5) by (apply Z.div_lt_upper_bound; lia). lia. }
  assert (Lk : length (firstn k v4) = k) by (rewrite length_firstn; lia).
  exists (record_of (byte_of_Z n) (firstn k v4) [g1; g2; g3; g4]), gw, g1, g2, g3, g4.
  rewrite parseHexStream_records, stream_bytes_encoded.
  split.
  - cbn [app]. rewrite records_cons. cbv zeta.
    rewrite byte_val_of_Z by lia. fold k.
    rewrite length_app, Lk. cbn [length].
    destruct (Nat.ltb_spec (k + 4) (k + 4)); [lia |].
    rewrite skipn_all2 by (rewrite length_app, Lk; cbn [length]; lia).
    rewrite records_nil.
    rewrite firstn_app, Lk, Nat.sub_diag, firstn_all2 by lia.
    cbn [firstn]. rewrite app_nil_r.
    rewrite skipn_app, Lk, Nat.sub_diag, skipn_all2 by lia.
    reflexivity.
  - repeat (split; [reflexivity || assumption |]).
    unfold len. rewrite length_app, EncodeToString_length.
    cbn [app length]. rewrite length_app, Lk. cbn [length].
    change (length (str "0x")) with 2%nat. lia.
Qed.

Lemma X3_encoder_output_witness :
  let parseIPv6 := fun _ : gostring => @None (list byte * gostring) in
  let h := str "0x19c0a8004d0a000001" in
  buildHexString parseIPv6 (str "192.168.0.77/025") (str "10.0.0.1") = (h, None)
  /\ exists rec gw g1 g2 g3 g4,
    parseHexStream h = ([rec], None)
    /\ Hex rec = h /\ Error rec = []
    /\ net.ParseIP parseIPv6 (str "10.0.0.1") = Some gw
    /\ net.To4 gw = Some [g1; g2; g3; g4]
    /\ Route rec = net.IPv4_String g1 g2 g3 g4
    /\ 12 <= len h <= 20.
Proof.
  cbv zeta.
  assert (H : buildHexString (fun _ => None) (str "192.168.0.77/025") (str "10.0.0.1")
              = (str "0x19c0a8004d0a000001", None)) by reflexivity.
  split; [exact H |].
  exact (X3_encoder_output_decodes _ _ _ _ H).
Defined.

(** X4: the encoder either returns a string that begins with "0x" and no
    error, or the empty string and one of five errors.  A CIDR that does not
    parse is reported whatever the gateway is; the byte count of the target
    is only ever refused for being above four (an IPv6 prefix longer than
    32 bits on an IPv4-mapped address), and the byte count of the gateway is
    never refused. *)
Theorem X4_encoder_errors
    (parseIPv6 : gostring -> option (list byte * gostring))
    (targetCIDR routeIP : gostring) :
  (net.ParseCIDR parseIPv6 targetCIDR = None ->
   buildHexString parseIPv6 targetCIDR routeIP
   = ([], Some (invalid_target_CIDR targetCIDR)))
  /\ match buildHexString parseIPv6 targetCIDR routeIP with
     | (h, None) => strings.HasPrefix h (str "0x") = true
     | (h, Some err) =>
         h = []
         /\ (err = invalid_target_CIDR targetCIDR
             \/ (exists ip, err = target_ip_error (only_IPv4_supported ip))
             \/ (exists n, 4 < n <= 16 /\ err = target_ip_error (invalid_bytes n))
             \/ err = invalid_route_IP routeIP
             \/ (exists ip, err = route_ip_error (only_IPv4_supported ip)))
     end.
Proof.
  unfold buildHexString. split; [intros ->; reflexivity |].
  destruct (net.ParseCIDR parseIPv6 targetCIDR) as [[ip ipNet] |] eqn:Ep;
    [| split; [reflexivity | now left]].
  destruct (ParseCIDR_inv _ _ _ _ Ep) as (n & bits & Hbits & Hn & ->).
  cbn [net.IPNet_Mask]. rewrite (Size_CIDRMask n bits Hbits Hn).
  assert (Hk : 0 <= cidrPrefixBytes n <= 16).
  { destruct (Z.eq_dec n 0) as [-> | Hnz]; [vm_compute; split; congruence |].
    rewrite cidrPrefixBytes_ceil by (destruct Hbits; lia).
    split; [apply Z.div_pos; lia |].
    apply Z.lt_succ_r, Z.div_lt_upper_bound; destruct Hbits; lia. }
  unfold ipToHex at 1.
  destruct (net.To4 ip) as [v4 |];
    [| split; [reflexivity |]; right; left; now exists ip].
  rewrite Z.gtb_ltb.
  destruct (Z.ltb_spec (cidrPrefixBytes n) 0); [lia |].
  destruct (Z.ltb_spec 4 (cidrPrefixBytes n)); cbn [orb].
  { split; [reflexivity |]. right; right; left.
    exists (cidrPrefixBytes n). split; [lia | reflexivity]. }
  destruct (net.ParseIP parseIPv6 routeIP) as [gw |];
    [| split; [reflexivity |]; now right; right; right; left].
  unfold ipToHex.
  destruct (net.To4 gw) as [g4 |];
    [| split; [reflexivity |]; right; right; right; right; now exists gw].
  reflexivity.
Qed.

(* ------------------------------------------------------------------ *)
(** ** Targets the encoder refuses *)


Lemma dtoi_loop_value (ds : gostring) :
  Forall (fun c => net.isDigit c = true) ds ->
  forall n i,
    match net.dtoi_loop ds n i with
    | (m, j, true) => m = dec_value ds n /\ j = i + len ds
    | (_, _, false) => True
    end.
Proof.
  induction 1 as [| c ds Hc _ IH]; intros n i.
  - cbn. unfold len. cbn. lia.
  - cbn [net.dtoi_loop]. rewrite Hc.
    destruct (_ >=? net.big); [exact I |].
    specialize (IH (n * 10 + (byte_val c - 48)) (i + 1)).
    destruct (net.dtoi_loop ds _ _) as [[m j] [|]]; [| exact I].
    destruct IH as [-> ->]. split; [reflexivity |].
    unfold len. cbn [length]. lia.
Qed.

Lemma digits_decimal (fuel : nat) :
  forall p, 0 <= p < 10 ^ Z.of_nat fuel ->
  Forall (fun c => net.isDigit c = true) (fmt.digits fuel 10 p)
  /\ dec_value (fmt.digits fuel 10 p) 0 = p.
Proof.
  assert (D : forall d, 0 <= d < 10 ->
            net.isDigit (hex.hextable d) = true
            /\ byte_val (hex.hextable d) - 48 = d).
  { intros d Hd. unfold hex.hextable, net.isDigit.
    destruct (Z.ltb_spec d 10); [| lia].
    rewrite byte_val_of_Z by lia.
    split; [| lia].
    apply andb_true_iff. split; apply Z.leb_le; lia. }
  induction fuel as [| fuel IH]; intros p Hp.
  - change (10 ^ Z.of_nat 0) with 1 in Hp. assert (p = 0) as -> by lia.
    split; [constructor | reflexivity].
  - cbn [fmt.digits].
    destruct (Z.ltb_spec p 10).
    + destruct (D p ltac:(lia)) as [D1 D2].
      split; [repeat constructor; exact D1 |].
      unfold dec_value. cbn [fold_left]. lia.
    + assert (Hq : 0 <= p / 10 < 10 ^ Z.of_nat fuel).
      { split; [apply Z.div_pos; lia |].
        apply Z.div_lt_upper_bound; [lia |].
        rewrite Nat2Z.inj_succ, Z.pow_succ_r in Hp by lia. lia. }
      destruct (IH _ Hq) as [F V].
      destruct (D (p mod 10) (Z.mod_pos_bound p 10 ltac:(lia))) as [D1 D2].
      split.
      * apply Forall_app. split; [exact F | repeat constructor; exact D1].
      * unfold dec_value in *. rewrite fold_left_app, V. cbn [fold_left].
        rewrite D2. pose proof (Z.div_mod p 10 ltac:(lia)). lia.
Qed.

(** [dtoi] on the decimal text of an integer: it fails, or finds the
    integer again. *)
Lemma dtoi_Sprintf_d_cases (p : Z) :
  - 10 ^ 20 < p < 10 ^ 20 ->
  match net.dtoi (fmt.Sprintf_d p) with
  | (n, i, true) => 0 <= p /\ n = p /\ i = len (fmt.Sprintf_d p)
  | (_, _, false) => True
  end.
Proof.
  intros Hp. unfold net.dtoi, fmt.Sprintf_d.
  destruct (Z.ltb_spec p 0).
  - cbn. exact I.
  - destruct (digits_decimal 20 p ltac:(change (Z.of_nat 20) with 20; lia)) as [F V].
    pose proof (dtoi_loop_value _ F 0 0) as H0.
    destruct (net.dtoi_loop (fmt.digits 20 10 p) 0 0) as [[m j] [|]];
      cbn [negb]; [| exact I].
    destruct H0 as [-> ->].
    destruct (Z.eqb_spec (0 + len (fmt.digits 20 10 p)) 0); [exact I |].
    rewrite V. repeat split; lia.
Qed.

(** X5: the encoder refuses an IPv4 target whose prefix length is negative
    or above 32, with the error of a CIDR that does not parse, whatever the
    gateway is. *)
Theorem X5_prefix_out_of_range_refused
    (parseIPv6 : gostring -> option (list byte * gostring))
    (a b c d : byte) (p : Z) (routeIP : gostring) :
  - 10 ^ 20 < p < 10 ^ 20 -> p < 0 \/ 32 < p ->
  let targetCIDR := fmt.Sprintf_s_slash_d (net.IPv4_String a b c d) p in
  buildHexString parseIPv6 targetCIDR routeIP
  = ([], Some (invalid_target_CIDR targetCIDR)).
Proof.
  intros Hp Hr targetCIDR.
  enough (E : net.ParseCIDR parseIPv6 targetCIDR = None)
    by (unfold buildHexString; now rewrite E).
  unfold net.ParseCIDR, targetCIDR, fmt.Sprintf_s_slash_d.
  change (str "/") with ["/"%byte]. cbn [app].
  rewrite (Cut_first _ _ _ (IPv4_String_no_slash a b c d)). cbn [negb].
  rewrite ParseAddr_IPv4_String. cbn [net.Zone len length Z.of_nat Z.eqb negb].
  pose proof (dtoi_Sprintf_d_cases p Hp) as H.
  destruct (net.dtoi (fmt.Sprintf_d p)) as [[n i] [|]]; [| reflexivity].
  destruct H as (H0 & -> & ->). cbn [negb orb net.BitLen].
  rewrite Z.eqb_refl, Z.gtb_ltb. cbn [negb orb].
  destruct (Z.ltb_spec p 0); [reflexivity |].
  destruct (Z.ltb_spec 32 p); [reflexivity | lia].
Qed.

Lemma X5_prefix_out_of_range_witness :
  let parseIPv6 := fun _ : gostring => @None (list byte * gostring) in
  - 10 ^ 20 < 33 < 10 ^ 20 /\ (33 < 0 \/ 32 < 33)
  /\ buildHexString parseIPv6 (str "10.0.0.0/33") (str "10.0.0.1")
     = ([], Some (invalid_target_CIDR (str "10.0.0.0/33"))).
Proof.
  cbv zeta.
  assert (H1 : - 10 ^ 20 < 33 < 10 ^ 20) by (split; reflexivity).
  assert (H2 : 33 < 0 \/ 32 < 33) by (right; reflexivity).
  split; [exact H1 |]. split; [exact H2 |].
  exact (X5_prefix_out_of_range_refused (fun _ => None) x0a x00 x00 x00 33
           (str "10.0.0.1") H1 H2).
Defined.

Lemma Cut_not_found (s : gostring) (sep : byte) :
  Forall (fun c => byte_eqb c sep = false) s ->
  strings.Cut s sep = (s, [], false).
Proof.
  induction 1 as [| c s Hc _ IH]; [reflexivity |].
  cbn [strings.Cut]. now rewrite Hc, IH.
Qed.

(** X6: a target with no slash in it is refused with the error of a CIDR
    that does not parse: the encoder has no default prefix length. *)
Theorem X6_target_without_slash_refused
    (parseIPv6 : gostring -> option (list byte * gostring))
    (targetCIDR routeIP : gostring) :
  Forall (fun c => byte_eqb c "/" = false) targetCIDR ->
  buildHexString parseIPv6 targetCIDR routeIP
  = ([], Some (invalid_target_CIDR targetCIDR)).
Proof.
  intros H. unfold buildHexString, net.ParseCIDR.
  now rewrite (Cut_not_found _ _ H).
Qed.

Lemma X6_target_without_slash_witness :
  let parseIPv6 := fun _ : gostring => @None (list byte * gostring) in
  Forall (fun c => byte_eqb c "/" = false) (str "192.168.0.1")
  /\ buildHexString parseIPv6 (str "192.168.0.1") (str "10.0.0.1")
     = ([], Some (invalid_target_CIDR (str "192.168.0.1"))).
Proof.
  cbv zeta.
  assert (H : Forall (fun c => byte_eqb c "/" = false) (str "192.168.0.1"))
    by (repeat constructor).
  split; [exact H |].
  exact (X6_target_without_slash_refused (fun _ => None) _ (str "10.0.0.1") H).
Defined.

(* ------------------------------------------------------------------ *)
(** ** The records of the decoder *)

Lemma records_single (b : byte) (netPart routePart : list byte) :
  length netPart = Z.to_nat (cidrPrefixBytes (byte_val b)) ->
  length routePart = 4%nat ->
  records (b :: netPart ++ routePart) = ([record_of b netPart routePart], None).
Proof.
  intros Hn Hr. rewrite records_cons. cbv zeta. rewrite <- Hn.
  rewrite length_app, Hr.
  destruct (Nat.ltb_spec (length netPart + 4) (length netPart + 4)); [lia |].
  rewrite skipn_all2 by (rewrite length_app; lia).
  rewrite records_nil.
  rewrite (firstn_app_exact netPart routePart) by reflexivity.
  rewrite skipn_app, Nat.sub_diag, skipn_all. cbn [skipn app].
  rewrite (firstn_all2 routePart) by lia. reflexivity.
Qed.

(** X7: every record the decoder returns, with or without an error, has an
    empty error field and a hex string that the decoder turns back into
    that very record, alone and without error. *)
Theorem X7_record_hex_decodes_to_record (hexStr : gostring) :
  Forall (fun r => Error r = [] /\ parseHexStream (Hex r) = ([r], None))
         (fst (parseHexStream hexStr)).
Proof.
  rewrite parseHexStream_records.
  destruct (stream_bytes hexStr) as [data [e |]]; [constructor |].
  destruct (records data) as [rs err] eqn:E.
  destruct (records_wire_bytes data rs err E) as (_ & _ & _ & Hf).
  cbn [fst]. eapply Forall_impl; [| exact Hf].
  intros r (b & netPart & routePart & -> & Hn & Hr).
  split; [reflexivity |].
  rewrite (proj2 (wire_bytes_record_of b netPart routePart)).
  rewrite parseHexStream_records, stream_bytes_encoded.
  now apply records_single.
Qed.

(** Every record takes at least five bytes of the buffer. *)
Lemma records_count (data : list byte) :
  (5 * length (fst (records data)) <= length data)%nat.
Proof.
  induction data as [| b tl n IH] using records_ind; [cbn; lia |].
  rewrite records_cons. cbv zeta. fold n.
  destruct (Nat.ltb_spec (length tl) (n + 4)) as [Hlt | Hge]; [cbn; lia |].
  specialize (IH Hge). rewrite length_skipn in IH.
  destruct (records (skipn (n + 4) tl)) as [rs e].
  cbn [fst length] in *. lia.
Qed.

Lemma DecodeString_length (s : gostring) :
  (2 * length (fst (hex.DecodeString s)) <= length s)%nat.
Proof.
  induction s as [| p | p q s IH] using list_ind_pairs; [cbn; lia | |].
  - cbn. destruct (hex.fromHexChar p); cbn; lia.
  - cbn [hex.DecodeString].
    destruct (hex.fromHexChar p); [| cbn; lia].
    destruct (hex.fromHexChar q); [| cbn; lia].
    destruct (hex.DecodeString s) as [d e]. cbn [fst length] in *. lia.
Qed.

(** X8: a record needs at least five bytes, so the decoder never returns
    more records than a fifth of the bytes of its buffer, nor than a tenth
    of the digits it decodes. *)
Theorem X8_record_count_bound (hexStr : gostring) :
  let rs := fst (parseHexStream hexStr) in
  (5 * length rs <= length (fst (stream_bytes hexStr)))%nat
  /\ (10 * length rs
      <= length (strip_prefix (strings.TrimSpace hexStr)))%nat.
Proof.
  cbv zeta. rewrite parseHexStream_records.
  pose proof (DecodeString_length (strip_prefix (strings.TrimSpace hexStr))) as Hd.
  unfold stream_bytes in *.
  destruct (hex.DecodeString _) as [data [e |]]; [cbn; lia |].
  pose proof (records_count data). cbn [fst] in *. lia.
Qed.

Lemma DecodeString_hex_text (h : gostring) (d : list byte) :
  hex.DecodeString h = (d, None) -> hex_text h.
Proof.
  revert d. induction h as [| p | p q h IH] using list_ind_pairs; intros d H.
  - constructor.
  - cbn in H. destruct (hex.fromHexChar p); discriminate.
  - cbn [hex.DecodeString] in H.
    destruct (hex.fromHexChar p) as [a |] eqn:Ep; [| discriminate].
    destruct (hex.fromHexChar q) as [b |] eqn:Eq; [| discriminate].
    destruct (hex.DecodeString h) as [d' e] eqn:Ed.
    injection H as _ ->.
    constructor; [unfold isHexDigit; now rewrite Ep |].
    constructor; [unfold isHexDigit; now rewrite Eq |].
    now apply (IH d').
Qed.

(** The records of a buffer stay in front when bytes are added behind it. *)
Lemma records_extend (d1 d2 : list byte) :
  exists more, fst (records (d1 ++ d2)) = fst (records d1) ++ more.
Proof.
  induction d1 as [| b tl n IH] using records_ind.
  - exists (fst (records d2)). reflexivity.
  - cbn [app]. rewrite !records_cons. cbv zeta. fold n.
    destruct (Nat.ltb_spec (length tl) (n + 4)) as [Hlt | Hge].
    + eexists. reflexivity.
    + rewrite length_app.
      destruct (Nat.ltb_spec (length tl + length d2) (n + 4)); [lia |].
      destruct (IH Hge) as [more Hm].
      rewrite !skipn_app.
      replace (n + 4 - length tl)%nat with 0%nat by lia.
      replace (n - length tl)%nat with 0%nat by lia.
      cbn [skipn].
      rewrite !firstn_app, length_skipn.
      replace (n - length tl)%nat with 0%nat by lia.
      replace (4 - (length tl - n))%nat with 0%nat by lia.
      cbn [firstn]. rewrite !app_nil_r.
      destruct (records (skipn (n + 4) tl ++ d2)) as [rs2 e2].
      destruct (records (skipn (n + 4) tl)) as [rs1 e1].
      cbn [fst] in *. exists more. now rewrite Hm.
Qed.

(** X9: digits added behind a blob never change the records already
    decoded: when both parts are valid hex, the records of the longer blob
    begin with the records of the shorter one, even when the shorter one
    ends in the middle of a record. *)
Theorem X9_records_stable_under_extension (h1 h2 : gostring) (d1 d2 : list byte) :
  hex.DecodeString h1 = (d1, None) ->
  hex.DecodeString h2 = (d2, None) ->
  exists more,
    fst (parseHexStream (str "0x" ++ h1 ++ h2))
    = fst (parseHexStream (str "0x" ++ h1)) ++ more.
Proof.
  intros H1 H2.
  pose proof (DecodeString_hex_text _ _ H1) as T1.
  pose proof (DecodeString_hex_text _ _ H2) as T2.
  rewrite !parseHexStream_records.
  rewrite (proj1 (proj2 (stream_bytes_hex_text _ T1))).
  rewrite (proj1 (proj2 (stream_bytes_hex_text _ (hex_text_app _ _ T1 T2)))).
  rewrite (DecodeString_app _ _ _ H1), H1, H2. cbn [fst snd].
  apply records_extend.
Qed.

Lemma X9_records_stable_witness :
  let h1 := str "18c0a800c0a80001000a00" in
  let h2 := str "0001" in
  let r1 := mkpair (str "192.168.0.0/24") (str "192.168.0.1") (str "0x18c0a800c0a80001") [] in
  let r2 := mkpair (str "0.0.0.0/0") (str "10.0.0.1") (str "0x000a000001") [] in
  hex.DecodeString h1
    = ([x18; xc0; xa8; x00; xc0; xa8; x00; x01; x00; x0a; x00], None)
  /\ hex.DecodeString h2 = ([x00; x01], None)
  /\ parseHexStream (str "0x" ++ h1) = ([r1], Some not_enough_data_for_record)
  /\ parseHexStream (str "0x" ++ h1 ++ h2) = ([r1; r2], None)
  /\ exists more,
       fst (parseHexStream (str "0x" ++ h1 ++ h2))
       = fst (parseHexStream (str "0x" ++ h1)) ++ more.
Proof.
  cbv zeta.
  assert (H1 : hex.DecodeString (str "18c0a800c0a80001000a00")
    = ([x18; xc0; xa8; x00; xc0; xa8; x00; x01; x00; x0a; x00], None)) by reflexivity.
  assert (H2 : hex.DecodeString (str "0001") = ([x00; x01], None)) by reflexivity.
  split; [exact H1 |]. split; [exact H2 |].
  split; [reflexivity |]. split; [reflexivity |].
  exact (X9_records_stable_under_extension _ _ _ _ H1 H2).
Defined.

(* ------------------------------------------------------------------ *)
(** ** Blobs that are not hexadecimal *)

Lemma DecodeString_odd (h : gostring) :
  hex_text h -> Nat.Odd (length h) ->
  snd (hex.DecodeString h) = Some hex.ErrLength.
Proof.
  induction h as [| p | p q h IH] using list_ind_pairs; intros H Ho.
  - destruct Ho as [k Hk]. cbn in Hk. lia.
  - apply Forall_inv in H. unfold isHexDigit in H. cbn.
    destruct (hex.fromHexChar p); [reflexivity | discriminate].
  - pose proof (Forall_inv H) as Hp.
    pose proof (Forall_inv (Forall_inv_tail H)) as Hq.
    cbv beta in Hp, Hq. unfold isHexDigit in Hp, Hq.
    cbn [hex.DecodeString].
    destruct (hex.fromHexChar p); [| discriminate].
    destruct (hex.fromHexChar q); [| discriminate].
    assert (Ho' : Nat.Odd (length h)).
    { destruct Ho as [k Hk]. cbn [length] in Hk. exists (k - 1)%nat. lia. }
    specialize (IH (Forall_inv_tail (Forall_inv_tail H)) Ho').
    destruct (hex.DecodeString h). exact IH.
Qed.

(** X10: a blob with an odd number of hex digits is refused as a whole, with
    the error of an odd length and no record at all, however many complete
    records its digits begin with; the prefix makes no difference. *)
Theorem X10_odd_digits_refused (h : gostring) :
  hex_text h -> Nat.Odd (length h) ->
  parseHexStream (str "0x" ++ h) = ([], Some (invalid_hex_string hex.ErrLength))
  /\ parseHexStream (str "0X" ++ h) = ([], Some (invalid_hex_string hex.ErrLength))
  /\ parseHexStream h = ([], Some (invalid_hex_string hex.ErrLength)).
Proof.
  intros H Ho.
  destruct (stream_bytes_hex_text h H) as (E1 & E2 & E3).
  pose proof (DecodeString_odd h H Ho) as E.
  rewrite !parseHexStream_records, E1, E2, E3.
  destruct (hex.DecodeString h) as [d e]. cbn [snd] in E. subst e.
  repeat split.
Qed.

Lemma X10_odd_digits_witness :
  let h := str "18c0a800c0a800010" in
  hex_text h /\ Nat.Odd (length h)
  /\ parseHexStream (str "0x18c0a800c0a800010")
     = ([], Some (invalid_hex_string hex.ErrLength)).
Proof.
  cbv zeta.
  assert (H : hex_text (str "18c0a800c0a800010")) by (repeat constructor).
  assert (Ho : Nat.Odd (length (str "18c0a800c0a800010"))) by (exists 8%nat; reflexivity).
  split; [exact H |]. split; [exact Ho |].
  exact (proj1 (X10_odd_digits_refused _ H Ho)).
Defined.

Lemma DecodeString_invalid_byte (h1 h2 : gostring) (c : byte) :
  hex_text h1 -> isHexDigit c = false ->
  snd (hex.DecodeString (h1 ++ c :: h2)) = Some (hex.InvalidByteError c).
Proof.
  intros H Hc. unfold isHexDigit in Hc.
  destruct (hex.fromHexChar c) eqn:Ec; [discriminate |]. clear Hc.
  induction h1 as [| p | p q h1 IH] using list_ind_pairs.
  - cbn [app]. destruct h2; cbn [hex.DecodeString]; now rewrite Ec.
  - apply Forall_inv in H. unfold isHexDigit in H.
    cbn [app hex.DecodeString].
    destruct (hex.fromHexChar p); [| discriminate]. now rewrite Ec.
  - pose proof (Forall_inv H) as Hp.
    pose proof (Forall_inv (Forall_inv_tail H)) as Hq.
    cbv beta in Hp, Hq. unfold isHexDigit in Hp, Hq.
    cbn [app hex.DecodeString].
    destruct (hex.fromHexChar p); [| discriminate].
    destruct (hex.fromHexChar q); [| discriminate].
    specialize (IH (Forall_inv_tail (Forall_inv_tail H))).
    destruct (hex.DecodeString (h1 ++ c :: h2)). exact IH.
Qed.

(** X11: a byte that is not a hex digit anywhere behind the prefix makes the
    decoder refuse the whole blob: the error names the first such byte and
    no record is returned, however many complete records stand before it. *)
Theorem X11_invalid_byte_refused (h1 h2 : gostring) (c : byte) :
  hex_text h1 -> isHexDigit c = false -> plain c = true ->
  Forall (fun b => plain b = true) h2 ->
  parseHexStream (str "0x" ++ h1 ++ c :: h2)
  = ([], Some (invalid_hex_string (hex.InvalidByteError c))).
Proof.
  intros H1 Hc Hp H2.
  rewrite parseHexStream_records. unfold stream_bytes.
  rewrite TrimSpace_plain.
  - change (strip_prefix (str "0x" ++ ?x)) with x.
    pose proof (DecodeString_invalid_byte h1 h2 c H1 Hc) as E.
    destruct (hex.DecodeString (h1 ++ c :: h2)) as [d e].
    cbn [snd] in E. now subst e.
  - repeat (constructor; [reflexivity |]).
    apply Forall_app. split; [now apply hex_text_plain |].
    constructor; assumption.
Qed.

Lemma X11_invalid_byte_witness :
  let h1 := str "18c0a800c0a80001" in
  hex_text h1 /\ isHexDigit "g" = false /\ plain "g" = true
  /\ Forall (fun b => plain b = true) (str "0")
  /\ parseHexStream (str "0x18c0a800c0a80001g0")
     = ([], Some (invalid_hex_string (hex.InvalidByteError "g"))).
Proof.
  cbv zeta.
  assert (H1 : hex_text (str "18c0a800c0a80001")) by (repeat constructor).
  assert (Hc : isHexDigit "g" = false) by reflexivity.
  assert (Hp : plain "g" = true) by reflexivity.
  assert (H2 : Forall (fun b => plain b = true) (str "0")) by (repeat constructor).
  repeat (split; [assumption |]).
  exact (X11_invalid_byte_refused _ _ _ H1 Hc Hp H2).
Defined.

(* ================================================================== *)
(** * Properties of the page handler *)

(* ------------------------------------------------------------------ *)
(** ** Fields *)

Lemma FieldsFunc_loop_fuel (f : Z -> bool) (f1 : nat) :
  forall (f2 : nat) (rest : gostring) (field : option gostring) (a : list gostring),
    (length rest < f1)%nat -> (length rest < f2)%nat ->
    strings.FieldsFunc_loop f1 rest field a f
    = strings.FieldsFunc_loop f2 rest field a f.
Proof.
  induction f1 as [| f1 IH]; intros f2 rest field a H1 H2; [lia |].
  destruct f2 as [| f2]; [lia |].
  destruct rest as [| c rest']; [reflexivity |].
  cbn [strings.FieldsFunc_loop].
  pose proof (DecodeRune_size (c :: rest') ltac:(discriminate)) as Hs.
  destruct (utf8.DecodeRuneInString (c :: rest')) as [r size].
  cbn [snd] in Hs. unfold len in Hs.
  assert (Hl : (length (skipn (Z.to_nat size) (c :: rest')) < length (c :: rest'))%nat)
    by (rewrite length_skipn; cbn [length] in *; lia).
  destruct (f r); destruct field; apply IH; lia.
Qed.


Lemma fields_from_nil (field : option gostring) (a : list gostring) :
  fields_from [] field a = close_field field a.
Proof. reflexivity. Qed.

(** One turn of the loop, whatever the fuel left. *)
Lemma FieldsFunc_loop_S (fuel : nat) (c : byte) (rest : gostring)
    (field : option gostring) (a : list gostring) (f : Z -> bool) :
  strings.FieldsFunc_loop (S fuel) (c :: rest) field a f
  = let '(rune, size) := utf8.DecodeRuneInString (c :: rest) in
    let rest' := skipn (Z.to_nat size) (c :: rest) in
    if f rune then
      strings.FieldsFunc_loop fuel rest' None (close_field field a) f
    else
      strings.FieldsFunc_loop fuel rest'
        (Some (open_bytes field ++ firstn (Z.to_nat size) (c :: rest))) a f.
Proof.
  change (strings.FieldsFunc_loop (S fuel) (c :: rest) field a f)
    with (let '(rune, size) := utf8.DecodeRuneInString (c :: rest) in
          let rest' := skipn (Z.to_nat size) (c :: rest) in
          if f rune then
            match field with
            | Some fl => strings.FieldsFunc_loop fuel rest' None (a ++ [fl]) f
            | None => strings.FieldsFunc_loop fuel rest' None a f
            end
          else
            match field with
            | Some fl =>
                strings.FieldsFunc_loop fuel rest'
                  (Some (fl ++ firstn (Z.to_nat size) (c :: rest))) a f
            | None =>
                strings.FieldsFunc_loop fuel rest'
                  (Some (firstn (Z.to_nat size) (c :: rest))) a f
            end).
  destruct (utf8.DecodeRuneInString (c :: rest)) as [r size].
  cbv zeta. destruct (f r); destruct field; reflexivity.
Qed.

(** A byte of ASCII that is not a space goes into the open field. *)
Lemma fields_from_plain (c : byte) (rest : gostring) (field : option gostring)
    (a : list gostring) :
  plain c = true ->
  fields_from (c :: rest) field a
  = fields_from rest (Some (open_bytes field ++ [c])) a.
Proof.
  intros Hc. unfold plain in Hc. apply andb_true_iff in Hc as [H1 H2].
  apply Z.ltb_lt in H1. apply negb_true_iff in H2.
  unfold fields_from. rewrite FieldsFunc_loop_S.
  assert (Hd : utf8.DecodeRuneInString (c :: rest) = (byte_val c, 1)).
  { unfold utf8.DecodeRuneInString.
    destruct (Z.ltb_spec (byte_val c) utf8.RuneSelf); [reflexivity | lia]. }
  rewrite Hd. cbv zeta.
  rewrite IsSpace_ascii, H2 by assumption.
  change (Z.to_nat 1) with 1%nat. cbn [skipn firstn length].
  apply FieldsFunc_loop_fuel; lia.
Qed.

(** A rune of white space closes the open field. *)
Lemma fields_from_space (r : Z) (rest : gostring) (field : option gostring)
    (a : list gostring) :
  unicode.IsSpace r = true ->
  fields_from (utf8.EncodeRune r ++ rest) field a
  = fields_from rest None (close_field field a).
Proof.
  intros Hr.
  destruct (space_rune_encoding r Hr) as (Hne & _ & Hd & _).
  unfold fields_from.
  destruct (utf8.EncodeRune r ++ rest) as [| c0 rest0] eqn:E.
  - destruct (utf8.EncodeRune r); [congruence | discriminate].
  - rewrite FieldsFunc_loop_S, <- E, Hd. cbv zeta. rewrite Hr.
    unfold len. rewrite Nat2Z.id, skipn_app, skipn_all, Nat.sub_diag.
    cbn [skipn app].
    apply FieldsFunc_loop_fuel; [| lia].
    rewrite length_app.
    destruct (utf8.EncodeRune r); [congruence | cbn [length]; lia].
Qed.

Lemma fields_from_token (t rest : gostring) (field : option gostring)
    (a : list gostring) :
  Forall (fun c => plain c = true) t -> t <> [] ->
  fields_from (t ++ rest) field a
  = fields_from rest (Some (open_bytes field ++ t)) a.
Proof.
  intros Ht. revert field. induction Ht as [| c t Hc Ht IH]; intros field Hne;
    [congruence |].
  cbn [app]. rewrite fields_from_plain by assumption.
  destruct t as [| c' t'].
  - reflexivity.
  - rewrite IH by discriminate. cbn [open_bytes].
    now rewrite <- app_assoc.
Qed.

Lemma fields_from_whitespace (w rest : gostring) (field : option gostring)
    (a : list gostring) :
  whitespace w -> w <> [] ->
  fields_from (w ++ rest) field a
  = fields_from rest None (close_field field a).
Proof.
  intros (rs & Hrs & ->) Hne.
  revert field a. induction Hrs as [| r rs Hr Hrs IH]; intros field a;
    [cbn in Hne; congruence |].
  cbn [flat_map]. rewrite <- app_assoc, fields_from_space by assumption.
  destruct rs as [| r' rs'].
  - reflexivity.
  - rewrite IH; [reflexivity |].
    cbn [flat_map]. intros C. apply app_eq_nil in C as [C _].
    apply Forall_inv in Hrs.
    now destruct (space_rune_encoding r' Hrs) as (Hne' & _).
Qed.


(** [Fields] finds the tokens of a line again. *)
Lemma Fields_joined (t : gostring) (more : list (gostring * gostring)) :
  token t -> Forall (fun wt => separator (fst wt) /\ token (snd wt)) more ->
  strings.Fields (joined t more) = t :: map snd more.
Proof.
  intros Ht Hm.
  enough (G : forall a,
            fields_from (joined t more) None a = a ++ t :: map snd more)
    by apply (G []).
  unfold joined. revert t Ht.
  induction Hm as [| [w t'] more [[Hw Hwn] Ht'] _ IH]; intros t [Ht Htn] a.
  - cbn [flat_map map]. rewrite fields_from_token by assumption. reflexivity.
  - cbn [flat_map map fst snd].
    rewrite fields_from_token by assumption. cbn [open_bytes app].
    rewrite <- !app_assoc, fields_from_whitespace by assumption.
    cbn [close_field]. rewrite IH by assumption.
    now rewrite <- app_assoc.
Qed.

(* ------------------------------------------------------------------ *)
(** ** Trimmed lines *)

Lemma plain_inv (c : byte) :
  plain c = true -> byte_val c < utf8.RuneSelf /\ strings.asciiSpace c = false.
Proof.
  unfold plain. intros H. apply andb_true_iff in H as [H1 H2].
  apply Z.ltb_lt in H1. apply negb_true_iff in H2. now split.
Qed.

Lemma TrimSpace_whitespace_around (w1 s w2 : gostring) :
  whitespace w1 -> whitespace w2 ->
  strings.TrimSpace (w1 ++ s ++ w2) = strings.TrimSpace s.
Proof. intros H1 H2. rewrite !TrimSpace_TrimFunc. now apply TrimFunc_whitespace. Qed.

Lemma TrimSpace_whitespace (w : gostring) :
  whitespace w -> strings.TrimSpace w = [].
Proof.
  intros H.
  pose proof (TrimSpace_whitespace_around w [] [] H whitespace_nil) as E.
  cbn [app] in E. rewrite app_nil_r in E. exact E.
Qed.


Lemma TrimSpace_tidy (s : gostring) : tidy s -> strings.TrimSpace s = s.
Proof.
  intros (Hne & Hh & Hl).
  rewrite TrimSpace_TrimFunc. unfold strings.TrimFunc.
  destruct (exists_last Hne) as (s' & c' & E).
  rewrite E in Hl. rewrite last_last in Hl.
  destruct (plain_inv _ Hl) as [L1 L2].
  destruct s as [| c rest]; [congruence |]. cbn [hd] in Hh.
  destruct (plain_inv _ Hh) as [F1 F2].
  rewrite TrimLeftFunc_plain by assumption.
  rewrite E. now apply TrimRightFunc_plain.
Qed.

Lemma token_tidy (t : gostring) : token t -> tidy t.
Proof.
  intros [Hp Hne]. split; [exact Hne |]. split.
  - destruct t as [| c t']; [congruence |]. exact (Forall_inv Hp).
  - destruct (exists_last Hne) as (t' & c' & E). rewrite E in *.
    rewrite last_last. apply Forall_app in Hp as [_ Hp]. exact (Forall_inv Hp).
Qed.

Lemma tidy_app (a m b : gostring) : tidy a -> tidy b -> tidy (a ++ m ++ b).
Proof.
  intros (Ha & Hah & _) (Hb & _ & Hbl). split; [| split].
  - destruct a; [congruence | discriminate].
  - destruct a; [congruence | exact Hah].
  - destruct (exists_last Hb) as (b' & c' & E). rewrite E in *.
    rewrite last_last in Hbl. rewrite !app_assoc, last_last. exact Hbl.
Qed.

Lemma joined_cons (t w t' : gostring) (more : list (gostring * gostring)) :
  joined t ((w, t') :: more) = t ++ w ++ joined t' more.
Proof. unfold joined. cbn [flat_map fst snd]. now rewrite <- app_assoc. Qed.

Lemma joined_tidy (t : gostring) (more : list (gostring * gostring)) :
  token t -> Forall (fun wt => separator (fst wt) /\ token (snd wt)) more ->
  tidy (joined t more).
Proof.
  intros Ht Hm. revert t Ht.
  induction Hm as [| [w t'] more [_ Ht'] _ IH]; intros t Ht.
  - unfold joined. cbn [flat_map]. rewrite app_nil_r. now apply token_tidy.
  - rewrite joined_cons. apply tidy_app; [now apply token_tidy | now apply IH].
Qed.

(* ------------------------------------------------------------------ *)
(** ** One line of the form *)

Lemma Error_text_nonempty (formatIPv6 : list byte -> gostring) (e : error) :
  Error_text formatIPv6 e <> [].
Proof. destruct e; discriminate. Qed.

Section PageProperties.

Variable parseIPv6 : gostring -> option (list byte * gostring).
Variable formatIPv6 : list byte -> gostring.

(** White space around a line is not seen. *)
Lemma pageHandler_line_trim (w1 line w2 : gostring) :
  whitespace w1 -> whitespace w2 ->
  pageHandler_line parseIPv6 formatIPv6 (w1 ++ line ++ w2)
  = pageHandler_line parseIPv6 formatIPv6 line.
Proof.
  intros H1 H2. unfold pageHandler_line.
  now rewrite TrimSpace_whitespace_around.
Qed.

(** The branch that a line of tokens takes. *)
Lemma pageHandler_line_joined (t : gostring) (more : list (gostring * gostring)) :
  token t -> Forall (fun wt => separator (fst wt) /\ token (snd wt)) more ->
  pageHandler_line parseIPv6 formatIPv6 (joined t more)
  = match more with
    | [] =>
        match parseHexStream t with
        | (recs, None) => recs
        | (_, Some err) => [mkpair [] [] t (Error_text formatIPv6 err)]
        end
    | [(_, t2)] =>
        match buildHexString parseIPv6 t t2 with
        | (res, None) => [mkpair t t2 res []]
        | (_, Some err) => [mkpair t t2 [] (Error_text formatIPv6 err)]
        end
    | _ => [mkpair [] [] [] (str "line format invalid: " ++ joined t more)]
    end.
Proof.
  intros Ht Hm. unfold pageHandler_line.
  pose proof (joined_tidy t more Ht Hm) as Hj.
  rewrite (TrimSpace_tidy _ Hj). cbv zeta.
  destruct (Z.eqb_spec (len (joined t more)) 0) as [E | _].
  { destruct Hj as [Hne _]. unfold len in E.
    destruct (joined t more); [congruence | cbn [length] in E; lia]. }
  rewrite (Fields_joined t more Ht Hm).
  destruct more as [| [w2 t2] [| wt3 more']].
  - cbn [map length nth]. change (Z.of_nat 1 =? 1) with true. cbv iota.
    destruct (parseHexStream t) as [recs [err |]]; reflexivity.
  - cbn [map length nth snd].
    change (Z.of_nat 2 =? 1) with false. change (Z.of_nat 2 =? 2) with true.
    cbv iota.
    destruct (buildHexString parseIPv6 t t2) as [res [err |]]; reflexivity.
  - cbn [map length].
    destruct (Z.eqb_spec (Z.of_nat (S (S (S (length (map snd more')))))) 1);
      [lia |].
    destruct (Z.eqb_spec (Z.of_nat (S (S (S (length (map snd more')))))) 2);
      [lia |].
    reflexivity.
Qed.

End PageProperties.

(* ------------------------------------------------------------------ *)
(** ** The lines of the form *)

Lemma Split_nonempty (s : gostring) (sep : byte) : strings.Split s sep <> [].
Proof.
  destruct s as [| c rest]; [discriminate |].
  cbn [strings.Split]. destruct (byte_eqb c sep); [discriminate |].
  destruct (strings.Split rest sep); discriminate.
Qed.

(** A text with no separator is one piece. *)
Lemma Split_no_sep (s : gostring) (sep : byte) :
  Forall (fun c => byte_eqb c sep = false) s -> strings.Split s sep = [s].
Proof.
  induction 1 as [| c rest Hc _ IH]; [reflexivity |].
  cbn [strings.Split]. now rewrite Hc, IH.
Qed.

(** The pieces of two texts with a separator between them. *)
Lemma Split_app (a b : gostring) (sep : byte) :
  strings.Split (a ++ sep :: b) sep = strings.Split a sep ++ strings.Split b sep.
Proof.
  induction a as [| c a IH].
  - cbn [app strings.Split].
    destruct (byte_eqb sep sep) eqn:E; [reflexivity |].
    assert (T : byte_eqb sep sep = true) by now apply byte_eqb_eq.
    congruence.
  - cbn [app strings.Split]. rewrite IH.
    destruct (byte_eqb c sep); [reflexivity |].
    pose proof (Split_nonempty a sep) as Hne.
    destruct (strings.Split a sep); [congruence | reflexivity].
Qed.

Lemma pageHandler_lines_flat_map
    (parseIPv6 : gostring -> option (list byte * gostring))
    (formatIPv6 : list byte -> gostring)
    (lines : list gostring) (results : list pair) :
  pageHandler_lines parseIPv6 formatIPv6 lines results
  = results ++ flat_map (pageHandler_line parseIPv6 formatIPv6) lines.
Proof.
  revert results. induction lines as [| l lines IH]; intros results.
  - cbn. now rewrite app_nil_r.
  - cbn [pageHandler_lines flat_map]. now rewrite IH, app_assoc.
Qed.


Lemma pageHandler_post
    (parseIPv6 : gostring -> option (list byte * gostring))
    (formatIPv6 : list byte -> gostring) (data : gostring) :
  pageHandler parseIPv6 formatIPv6 (post data)
  = Execute (flat_map (pageHandler_line parseIPv6 formatIPv6)
               (strings.Split (strings.TrimSpace data) x0a)).
Proof.
  unfold pageHandler, post. cbn [Method FormValue_data].
  change (net.bytes_eqb (str "POST") (str "GET")) with false.
  change (net.bytes_eqb (str "POST") (str "POST")) with true.
  cbv iota zeta. now rewrite pageHandler_lines_flat_map.
Qed.

Lemma plain_not_newline (s : gostring) :
  Forall (fun c => plain c = true) s ->
  Forall (fun c => byte_eqb c x0a = false) s.
Proof.
  apply Forall_impl. intros c. destruct c; vm_compute; congruence.
Qed.

(** A form of one line. *)
Lemma pageHandler_post_line
    (parseIPv6 : gostring -> option (list byte * gostring))
    (formatIPv6 : list byte -> gostring) (line : gostring) :
  tidy line -> Forall (fun c => byte_eqb c x0a = false) line ->
  pageHandler parseIPv6 formatIPv6 (post line)
  = Execute (pageHandler_line parseIPv6 formatIPv6 line).
Proof.
  intros Ht Hn. rewrite pageHandler_post, (TrimSpace_tidy _ Ht).
  rewrite (Split_no_sep _ _ Hn). cbn [flat_map]. now rewrite app_nil_r.
Qed.

(** X12: a line of white space alone adds no row: a form whose data is
    white space alone is answered with the page without rows, and a blank
    line between other lines changes nothing. *)
Theorem X12_blank_lines_skipped
    (parseIPv6 : gostring -> option (list byte * gostring))
    (formatIPv6 : list byte -> gostring) (w : gostring) :
  whitespace w ->
  pageHandler parseIPv6 formatIPv6 (post w) = Execute []
  /\ forall before behind results,
       pageHandler_lines parseIPv6 formatIPv6 (before ++ w :: behind) results
       = pageHandler_lines parseIPv6 formatIPv6 (before ++ behind) results.
Proof.
  intros Hw.
  assert (Hl : pageHandler_line parseIPv6 formatIPv6 w = []).
  { unfold pageHandler_line. now rewrite (TrimSpace_whitespace w Hw). }
  split.
  - rewrite pageHandler_post, (TrimSpace_whitespace w Hw).
    cbn [strings.Split flat_map]. rewrite app_nil_r.
    unfold pageHandler_line.
    now rewrite (TrimSpace_whitespace [] whitespace_nil).
  - intros before behind results.
    rewrite !pageHandler_lines_flat_map, !flat_map_app.
    cbn [flat_map]. now rewrite Hl.
Qed.

Lemma X12_blank_lines_witness :
  whitespace (str "  ")
  /\ pageHandler (fun _ => None) (fun _ => []) (post (str "  ")) = Execute [].
Proof.
  assert (Hw : whitespace (str "  ")).
  { exists [32; 32]. split; [repeat constructor | reflexivity]. }
  split; [exact Hw |].
  exact (proj1 (X12_blank_lines_skipped (fun _ => None) (fun _ => [])
                  (str "  ") Hw)).
Defined.

(** X13: a line with one token is read as a blob.  The rows are the
    records of the blob when all of it decodes; otherwise there is one row
    alone, with the token as hex string and the text of the error, and the
    records that were decoded before the error are not shown.  White space
    around the token is not seen. *)
Theorem X13_blob_line
    (parseIPv6 : gostring -> option (list byte * gostring))
    (formatIPv6 : list byte -> gostring) (w1 t w2 : gostring) :
  whitespace w1 -> whitespace w2 -> token t ->
  pageHandler_line parseIPv6 formatIPv6 (w1 ++ t ++ w2)
  = match parseHexStream t with
    | (recs, None) => recs
    | (_, Some err) => [mkpair [] [] t (Error_text formatIPv6 err)]
    end.
Proof.
  intros H1 H2 Ht. rewrite pageHandler_line_trim by assumption.
  pose proof (pageHandler_line_joined parseIPv6 formatIPv6 t [] Ht
                (Forall_nil _)) as E.
  unfold joined in E. cbn [flat_map] in E. rewrite app_nil_r in E. exact E.
Qed.

Lemma X13_blob_line_witness :
  whitespace (str " ") /\ whitespace ([x09]) /\ token (str "0x00010203040102")
  /\ pageHandler_line (fun _ => None) (fun _ => [])
       (str " " ++ str "0x00010203040102" ++ [x09])
     = [mkpair [] [] (str "0x00010203040102")
          (str "not enough data for record")].
Proof.
  assert (H1 : whitespace (str " "))
    by (exists [32]; split; [repeat constructor | reflexivity]).
  assert (H2 : whitespace ([x09]))
    by (exists [9]; split; [repeat constructor | reflexivity]).
  assert (Ht : token (str "0x00010203040102"))
    by (split; [repeat constructor | discriminate]).
  split; [exact H1 |]. split; [exact H2 |]. split; [exact Ht |].
  exact (X13_blob_line (fun _ => None) (fun _ => []) _ _ _ H1 H2 Ht).
Defined.

(** X14: a line with two tokens is read as a route.  It adds one row, which
    repeats the two tokens as they were written; the row has the hex string
    of the encoder and no error when the encoder accepts the tokens, and the
    text of the error and no hex string when it does not. *)
Theorem X14_route_line
    (parseIPv6 : gostring -> option (list byte * gostring))
    (formatIPv6 : list byte -> gostring) (w1 t1 w t2 w2 : gostring) :
  whitespace w1 -> whitespace w2 -> separator w -> token t1 -> token t2 ->
  exists row,
    pageHandler_line parseIPv6 formatIPv6 (w1 ++ (t1 ++ w ++ t2) ++ w2) = [row]
    /\ Target row = t1 /\ Route row = t2
    /\ match snd (buildHexString parseIPv6 t1 t2) with
       | None => Hex row = fst (buildHexString parseIPv6 t1 t2) /\ Error row = []
       | Some err => Hex row = [] /\ Error row = Error_text formatIPv6 err
                     /\ Error row <> []
       end.
Proof.
  intros H1 H2 Hw Ht1 Ht2. rewrite pageHandler_line_trim by assumption.
  pose proof (pageHandler_line_joined parseIPv6 formatIPv6 t1 [(w, t2)] Ht1
                ltac:(repeat constructor; [apply Hw | apply Hw | apply Ht2 | apply Ht2])) as E.
  rewrite joined_cons in E. unfold joined in E. cbn [flat_map] in E.
  rewrite app_nil_r in E. rewrite E.
  destruct (buildHexString parseIPv6 t1 t2) as [res [err |]]; cbn [fst snd].
  - eexists. split; [reflexivity |]. cbn [Target Route Hex Error].
    repeat split. apply Error_text_nonempty.
  - eexists. split; [reflexivity |]. cbn [Target Route Hex Error].
    repeat split.
Qed.

(** X15: a line with three tokens or more adds one row, which has no
    target, no gateway and no hex string; its error is the text
    "line format invalid: " and the line without the white space around
    it, the white space between the tokens kept. *)
Theorem X15_long_line_refused
    (parseIPv6 : gostring -> option (list byte * gostring))
    (formatIPv6 : list byte -> gostring)
    (w1 t w2 : gostring) (more : list (gostring * gostring)) :
  whitespace w1 -> whitespace w2 -> token t ->
  Forall (fun wt => separator (fst wt) /\ token (snd wt)) more ->
  (2 <= length more)%nat ->
  pageHandler_line parseIPv6 formatIPv6 (w1 ++ joined t more ++ w2)
  = [mkpair [] [] [] (str "line format invalid: " ++ joined t more)].
Proof.
  intros H1 H2 Ht Hm Hn. rewrite pageHandler_line_trim by assumption.
  rewrite (pageHandler_line_joined parseIPv6 formatIPv6 t more Ht Hm).
  destruct more as [| wt2 [| wt3 more']]; cbn [length] in Hn; try lia.
  now destruct wt2.
Qed.

Lemma X14_route_line_witness :
  let parseIPv6 := fun _ : gostring => @None (list byte * gostring) in
  let formatIPv6 := fun _ : list byte => @nil byte in
  whitespace [] /\ whitespace (str " ") /\ separator (str "  ")
  /\ token (str "10.0.0.0/8") /\ token (str "10.0.0.1")
  /\ exists row,
       pageHandler_line parseIPv6 formatIPv6
         ([] ++ (str "10.0.0.0/8" ++ str "  " ++ str "10.0.0.1") ++ str " ")
       = [row]
       /\ Target row = str "10.0.0.0/8" /\ Route row = str "10.0.0.1"
       /\ match snd (buildHexString parseIPv6 (str "10.0.0.0/8") (str "10.0.0.1")) with
          | None =>
              Hex row = fst (buildHexString parseIPv6 (str "10.0.0.0/8")
                               (str "10.0.0.1"))
              /\ Error row = []
          | Some err => Hex row = [] /\ Error row = Error_text formatIPv6 err
                        /\ Error row <> []
          end.
Proof.
  intros parseIPv6 formatIPv6.
  assert (H2 : whitespace (str " "))
    by (exists [32]; split; [repeat constructor | reflexivity]).
  assert (Hw : separator (str "  ")).
  { split; [| discriminate].
    exists [32; 32]. split; [repeat constructor | reflexivity]. }
  assert (Ht1 : token (str "10.0.0.0/8"))
    by (split; [repeat constructor | discriminate]).
  assert (Ht2 : token (str "10.0.0.1"))
    by (split; [repeat constructor | discriminate]).
  split; [exact whitespace_nil |]. split; [exact H2 |]. split; [exact Hw |].
  split; [exact Ht1 |]. split; [exact Ht2 |].
  exact (X14_route_line parseIPv6 formatIPv6 [] _ _ _ _
           whitespace_nil H2 Hw Ht1 Ht2).
Defined.

Lemma X15_long_line_witness :
  let parseIPv6 := fun _ : gostring => @None (list byte * gostring) in
  let formatIPv6 := fun _ : list byte => @nil byte in
  let more := [(str " ", str "b"); ([x09], str "c")] in
  whitespace [] /\ token (str "a")
  /\ Forall (fun wt => separator (fst wt) /\ token (snd wt)) more
  /\ (2 <= length more)%nat
  /\ pageHandler_line parseIPv6 formatIPv6 ([] ++ joined (str "a") more ++ [])
     = [mkpair [] [] [] (str "line format invalid: " ++ joined (str "a") more)].
Proof.
  intros parseIPv6 formatIPv6 more.
  assert (Ht : token (str "a")) by (split; [repeat constructor | discriminate]).
  assert (Hm : Forall (fun wt => separator (fst wt) /\ token (snd wt)) more).
  { constructor; [| constructor; [| constructor]]; cbn [fst snd].
    - split; [split; [| discriminate] | split; [repeat constructor | discriminate]].
      exists [32]. split; [repeat constructor | reflexivity].
    - split; [split; [| discriminate] | split; [repeat constructor | discriminate]].
      exists [9]. split; [repeat constructor | reflexivity]. }
  assert (Hn : (2 <= length more)%nat) by (cbn; lia).
  split; [exact whitespace_nil |]. split; [exact Ht |]. split; [exact Hm |].
  split; [exact Hn |].
  exact (X15_long_line_refused parseIPv6 formatIPv6 [] _ [] more
           whitespace_nil whitespace_nil Ht Hm Hn).
Defined.

(* ------------------------------------------------------------------ *)
(** ** The page as a round trip *)

Lemma appendDecimal_plain (a : byte) :
  Forall (fun c => plain c = true) (net.appendDecimal a).
Proof. destruct a; repeat constructor. Qed.

Lemma IPv4_String_token (a b c d : byte) : token (net.IPv4_String a b c d).
Proof.
  split.
  - unfold net.IPv4_String.
    repeat (apply Forall_app; split);
      try apply appendDecimal_plain; repeat constructor.
  - unfold net.IPv4_String.
    destruct (appendDecimal_cons a) as (c0 & r & ->). discriminate.
Qed.

Lemma Sprintf_d_plain (p : Z) :
  0 <= p <= 32 -> Forall (fun c => plain c = true) (fmt.Sprintf_d p).
Proof.
  intros H. apply Forall_forall. apply forallb_forall.
  apply (Z_range_forallb (fun p => forallb plain (fmt.Sprintf_d p)) 33);
    [vm_compute; reflexivity | lia].
Qed.

Lemma target_token (a b c d : byte) (p : Z) :
  0 <= p <= 32 -> token (fmt.Sprintf_s_slash_d (net.IPv4_String a b c d) p).
Proof.
  intros H. destruct (IPv4_String_token a b c d) as [Hp Hne].
  unfold fmt.Sprintf_s_slash_d. split.
  - apply Forall_app. split; [exact Hp |].
    apply Forall_app. split; [repeat constructor | now apply Sprintf_d_plain].
  - destruct (net.IPv4_String a b c d); [congruence | discriminate].
Qed.

Lemma blob_token (data : list byte) : token (str "0x" ++ hex.EncodeToString data).
Proof.
  split; [| discriminate].
  apply Forall_app. split; [repeat constructor |].
  apply hex_text_plain, EncodeToString_hex_text.
Qed.

(** The decoder on the blob of a canonical route. *)
Lemma parseHexStream_canonical (p : Z) (a b c d g1 g2 g3 g4 : byte) :
  0 <= p <= 32 ->
  skipn (Z.to_nat (cidrPrefixBytes p)) [a; b; c; d]
    = repeat x00 (4 - Z.to_nat (cidrPrefixBytes p)) ->
  let h := str "0x" ++ hex.EncodeToString
             ([byte_of_Z p] ++ firstn (Z.to_nat (cidrPrefixBytes p)) [a; b; c; d]
              ++ [g1; g2; g3; g4]) in
  parseHexStream h
  = ([mkpair (fmt.Sprintf_s_slash_d (net.IPv4_String a b c d) p)
        (net.IPv4_String g1 g2 g3 g4) h []], None).
Proof.
  intros Hp Hz h. subst h.
  rewrite parseHexStream_records, stream_bytes_encoded.
  cbn [app]. rewrite records_cons. cbv zeta.
  rewrite byte_val_of_Z by lia.
  assert (Hn : 0 <= cidrPrefixBytes p <= 4).
  { destruct (Z.eq_dec p 0) as [-> | Hnz]; [vm_compute; split; congruence |].
    rewrite cidrPrefixBytes_ceil by lia.
    split; [apply Z.div_pos; lia |].
    apply Z.lt_succ_r, Z.div_lt_upper_bound; lia. }
  unfold record_of. rewrite byte_val_of_Z by lia.
  destruct (Z.to_nat (cidrPrefixBytes p)) as [| [| [| [| [| n]]]]] eqn:En;
    [ | | | | | lia];
    cbn [repeat Nat.sub skipn] in Hz; try (injection Hz; intros; subst);
    reflexivity.
Qed.

(** X16: the page is its own inverse on a canonical route.  For a route
    with a prefix length in [0,32] whose network bytes beyond the first
    [ceil(prefixLength / 8)] are zero, the form with the line "target
    gateway" is answered with one row: the two texts, a hex string and no
    error; and the form with that hex string as its only line is answered
    with the same row. *)
Theorem X16_page_round_trip
    (parseIPv6 : gostring -> option (list byte * gostring))
    (formatIPv6 : list byte -> gostring)
    (p : Z) (a b c d g1 g2 g3 g4 : byte) :
  0 <= p <= 32 ->
  skipn (Z.to_nat (cidrPrefixBytes p)) [a; b; c; d]
    = repeat x00 (4 - Z.to_nat (cidrPrefixBytes p)) ->
  let target := fmt.Sprintf_s_slash_d (net.IPv4_String a b c d) p in
  let route := net.IPv4_String g1 g2 g3 g4 in
  exists h,
    pageHandler parseIPv6 formatIPv6 (post (target ++ str " " ++ route))
    = Execute [mkpair target route h []]
    /\ pageHandler parseIPv6 formatIPv6 (post h)
       = Execute [mkpair target route h []].
Proof.
  intros Hp Hz target route.
  pose proof (target_token a b c d p Hp) as Ht. fold target in Ht.
  pose proof (IPv4_String_token g1 g2 g3 g4) as Hr. fold route in Hr.
  assert (Hs : separator (str " ")).
  { split; [| discriminate].
    exists [32]. split; [repeat constructor | reflexivity]. }
  assert (Hm : Forall (fun wt => separator (fst wt) /\ token (snd wt))
                 [(str " ", route)])
    by (constructor; [split; assumption | constructor]).
  eexists. split.
  - pose proof (joined_tidy target _ Ht Hm) as Hj.
    pose proof (pageHandler_line_joined parseIPv6 formatIPv6 target _ Ht Hm) as E.
    rewrite joined_cons in Hj, E. unfold joined in Hj, E.
    cbn [flat_map] in Hj, E. rewrite app_nil_r in Hj, E.
    rewrite pageHandler_post_line; [| exact Hj |].
    + rewrite E. subst target route.
      rewrite (buildHexString_canonical parseIPv6 p a b c d g1 g2 g3 g4 Hp).
      reflexivity.
    + apply Forall_app. split; [apply plain_not_newline, Ht |].
      apply Forall_app. split; [repeat constructor |].
      apply plain_not_newline, Hr.
  - pose proof (blob_token ([byte_of_Z p]
                  ++ firstn (Z.to_nat (cidrPrefixBytes p)) [a; b; c; d]
                  ++ [g1; g2; g3; g4])) as Hb.
    rewrite pageHandler_post_line;
      [| now apply token_tidy | apply plain_not_newline, Hb].
    pose proof (pageHandler_line_joined parseIPv6 formatIPv6 _ [] Hb
                  (Forall_nil _)) as E.
    unfold joined in E. cbn [flat_map] in E. rewrite app_nil_r in E.
    rewrite E.
    rewrite (parseHexStream_canonical p a b c d g1 g2 g3 g4 Hp Hz).
    reflexivity.
Qed.

Lemma X16_page_round_trip_witness :
  let parseIPv6 := fun _ : gostring => @None (list byte * gostring) in
  let formatIPv6 := fun _ : list byte => @nil byte in
  0 <= 24 <= 32
  /\ skipn (Z.to_nat (cidrPrefixBytes 24)) [xc0; xa8; x00; x00]
     = repeat x00 (4 - Z.to_nat (cidrPrefixBytes 24))
  /\ exists h,
       pageHandler parseIPv6 formatIPv6
         (post (str "192.168.0.0/24" ++ str " " ++ str "192.168.0.1"))
       = Execute [mkpair (str "192.168.0.0/24") (str "192.168.0.1") h []]
       /\ pageHandler parseIPv6 formatIPv6 (post h)
          = Execute [mkpair (str "192.168.0.0/24") (str "192.168.0.1") h []].
Proof.
  intros parseIPv6 formatIPv6.
  assert (Hp : 0 <= 24 <= 32) by lia.
  assert (Hz : skipn (Z.to_nat (cidrPrefixBytes 24)) [xc0; xa8; x00; x00]
               = repeat x00 (4 - Z.to_nat (cidrPrefixBytes 24)))
    by reflexivity.
  split; [exact Hp |]. split; [exact Hz |].
  exact (X16_page_round_trip parseIPv6 formatIPv6 24 xc0 xa8 x00 x00
           xc0 xa8 x00 x01 Hp Hz).
Defined.

(** X17: the rows of a form follow its lines.  When two texts each begin
    and end with a byte of ASCII that is not a space, the form with the
    first text, a newline and the second text is answered with the rows of
    the first text and then the rows of the second. *)
Theorem X17_rows_in_line_order
    (parseIPv6 : gostring -> option (list byte * gostring))
    (formatIPv6 : list byte -> gostring)
    (d1 d2 : gostring) (rows1 rows2 : list pair) :
  tidy d1 -> tidy d2 ->
  pageHandler parseIPv6 formatIPv6 (post d1) = Execute rows1 ->
  pageHandler parseIPv6 formatIPv6 (post d2) = Execute rows2 ->
  pageHandler parseIPv6 formatIPv6 (post (d1 ++ x0a :: d2))
  = Execute (rows1 ++ rows2).
Proof.
  intros H1 H2 E1 E2.
  pose proof (tidy_app d1 [x0a] d2 H1 H2) as H12. cbn [app] in H12.
  rewrite pageHandler_post in *.
  rewrite (TrimSpace_tidy _ H1) in E1. rewrite (TrimSpace_tidy _ H2) in E2.
  rewrite (TrimSpace_tidy _ H12), Split_app, flat_map_app.
  injection E1 as ->. injection E2 as ->. reflexivity.
Qed.

Lemma X17_rows_in_line_order_witness :
  let parseIPv6 := fun _ : gostring => @None (list byte * gostring) in
  let formatIPv6 := fun _ : list byte => @nil byte in
  let d1 := str "10.0.0.0/8 10.0.0.1" in
  let d2 := str "0x080a0a000001" in
  let rows1 := [mkpair (str "10.0.0.0/8") (str "10.0.0.1")
                  (str "0x080a0a000001") []] in
  let rows2 := [mkpair (str "10.0.0.0/8") (str "10.0.0.1")
                  (str "0x080a0a000001") []] in
  tidy d1 /\ tidy d2
  /\ pageHandler parseIPv6 formatIPv6 (post d1) = Execute rows1
  /\ pageHandler parseIPv6 formatIPv6 (post d2) = Execute rows2
  /\ pageHandler parseIPv6 formatIPv6 (post (d1 ++ x0a :: d2))
     = Execute (rows1 ++ rows2).
Proof.
  intros parseIPv6 formatIPv6 d1 d2 rows1 rows2.
  assert (H1 : tidy d1) by (split; [discriminate | split; reflexivity]).
  assert (H2 : tidy d2) by (split; [discriminate | split; reflexivity]).
  assert (E1 : pageHandler parseIPv6 formatIPv6 (post d1) = Execute rows1)
    by (vm_compute; reflexivity).
  assert (E2 : pageHandler parseIPv6 formatIPv6 (post d2) = Execute rows2)
    by (vm_compute; reflexivity).
  split; [exact H1 |]. split; [exact H2 |]. split; [exact E1 |].
  split; [exact E2 |].
  exact (X17_rows_in_line_order parseIPv6 formatIPv6 d1 d2 rows1 rows2
           H1 H2 E1 E2).
Defined.
